(** * oled_monitor: a shallow embedding of [ansible/playbooks/oled_monitor.py]

    The monitor polls a handful of system metrics into a small store and
    renders them on a 128x64 monochrome display: two fixed lines, a divider,
    and two lines that alternate between two pages chosen from the wall
    clock.  Lines that are too wide scroll horizontally.

    Part I embeds the program; Part II states and proves its properties.

    Conventions of the embedding.
    - Python integers are [Z].
    - A Python float is read as the exact rational it denotes ([Q]).  The
      program only ever divides a float by a small constant, compares it,
      truncates it or prints it with a fixed number of decimals; the byte
      counts it divides by [1024 ** 3] are scaled by a power of two, which is
      exact below [2 ^ 53].
    - A call that may raise returns in the error monad [Exc].
    - Every method of a class takes the object first and returns the new
      object. *)

From Stdlib Require Import ZArith QArith Qabs Qround Lia.
From stdpp Require Import base option gmap strings list pretty.

Local Open Scope Z_scope.

(** * Part I: the program *)

(** ** Configuration *)

Definition I2C_ADDRESS   : Z := 60.
Definition I2C_PORT      : Z := 1.
Definition PAGE_FLIP_SEC : Z := 5.
Definition DISPLAY_W     : Z := 128.
Definition DISPLAY_H     : Z := 64.
Definition LINE_HEIGHT   : Z := 14.
Definition SCROLL_SPEED  : Z := 1.
Definition SCROLL_GAP    : Z := 28.

Definition Y_LINE1   : Z := 1.
Definition Y_LINE2   : Z := Y_LINE1 + LINE_HEIGHT.
Definition Y_DIVIDER : Z := Y_LINE2 + LINE_HEIGHT + 1.
Definition Y_LINE3   : Z := Y_DIVIDER + 3.
Definition Y_LINE4   : Z := Y_LINE3 + LINE_HEIGHT.

(** ** Python numbers *)

(** [int(x)] on a float: truncation toward zero. *)
Definition py_int (x : Q) : Z := Z.quot (Qnum x) (Z.pos (Qden x)).

(** The integer nearest to [x], a tie going to the even neighbour: the
    rounding of Python's fixed-point formatting. *)
Definition round_half_even (x : Q) : Z :=
  let n := Qnum x in
  let d := Z.pos (Qden x) in
  let f := n / d in
  match (2 * (n mod d)) ?= d with
  | Lt => f
  | Gt => f + 1
  | Eq => if Z.even f then f else f + 1
  end.

(** The last [k] decimal digits of [m], most significant first. *)
Fixpoint digits_fixed (k : nat) (m : Z) : string :=
  match k with
  | O => ""
  | S k' => digits_fixed k' (m / 10) +:+ pretty (m mod 10)
  end.

(** [format(x, ".<prec>f")] for a float of exact value [x]. *)
Definition fmt_f (prec : nat) (x : Q) : string :=
  let scale := 10 ^ Z.of_nat prec in
  let m := round_half_even (Qabs x * inject_Z scale) in
  (if Qlt_le_dec x 0 then "-" else "")
    +:+ pretty (m / scale)
    +:+ (match prec with O => "" | _ => "." +:+ digits_fixed prec (m mod scale) end).

(** [int / int], true division. *)
Definition py_truediv (a b : Z) : Q := (inject_Z a / inject_Z b)%Q.

(** ** Exceptions *)

Inductive Exc (A : Type) : Type :=
| Ok (a : A)
| Raise (msg : string).
Arguments Ok {A} a.
Arguments Raise {A} msg.

#[global] Instance Exc_ret : MRet Exc := fun A a => Ok a.
#[global] Instance Exc_bind : MBind Exc := fun A B f m =>
  match m with
  | Ok a => f a
  | Raise msg => Raise msg
  end.

(** [try: body  except Exception: handler]. *)
Definition try_except {A : Type} (body : Exc A) (handler : Exc A) : Exc A :=
  match body with
  | Ok a => Ok a
  | Raise _ => handler
  end.

(** ** The system the collectors read *)

Inductive AddressFamily : Type := AF_INET | AF_INET6 | AF_PACKET.

#[global] Instance AddressFamily_eq_dec : EqDecision AddressFamily.
Proof. solve_decision. Defined.

(** An entry of [psutil.net_if_addrs()]. *)
Record snicaddr : Type := { family : AddressFamily; address : string }.

(** [psutil.disk_usage(path)]. *)
Record sdiskusage : Type := { total : Z; used : Z; free : Z; percent : Q }.

(** One observation of everything the collectors call out to.  A field in
    [Exc] is a call that may raise. *)
Record System : Type := {
  (** the address of the UDP socket connected to 8.8.8.8:80 *)
  udp_sockname : Exc string;
  gethostname : Exc string;
  (** [psutil.virtual_memory().total] *)
  virtual_memory_total : Exc Z;
  (** [psutil.cpu_percent(interval=None)] *)
  cpu_percent : Exc Q;
  (** [int(f.read()) / 1000.0] over /sys/class/thermal/thermal_zone0/temp *)
  thermal_zone0 : Exc Q;
  (** [psutil.sensors_temperatures()]: the [current] fields per sensor *)
  sensors_temperatures : Exc (gmap string (list Q));
  (** whether the TCP connection to 8.8.8.8:53 succeeds *)
  tcp_probe : Exc unit;
  (** [psutil.net_if_stats()], in iteration order, with [isup] *)
  net_if_stats : Exc (list (string * bool));
  net_if_addrs : Exc (gmap string (list snicaddr));
  disk_usage_root : Exc sdiskusage;
  (** [datetime.now()]: hour, minute, second *)
  datetime_now : Z * Z * Z
}.

(** ** System info *)

Definition get_ip (sys : System) : Exc string :=
  try_except (udp_sockname sys) (Ok "No IP").

Definition get_hostname (sys : System) : Exc string := gethostname sys.

Definition ram_label (total_bytes : Z) : string :=
  let gb := py_truediv total_bytes (1024 ^ 3) in
  if Qlt_le_dec gb 3 then "2GB"
  else if Qlt_le_dec gb 6 then "4GB"
  else "8GB".

Definition get_ram_label (sys : System) : Exc string :=
  t ← virtual_memory_total sys; mret (ram_label t).

(** The sensor fallback of [get_cpu]: the first of the three keys that has a
    reading gives the temperature; [sensors_temperatures] is called once per
    key tried. *)
Fixpoint probe_sensors (sys : System) (keys : list string) (temp : Q) : Exc Q :=
  match keys with
  | [] => Ok temp
  | key :: rest =>
      t ← sensors_temperatures sys;
      match t !! key with
      | Some (r :: _) => Ok r
      | _ => probe_sensors sys rest temp
      end
  end.

Definition get_cpu (sys : System) : Exc string :=
  pct ← cpu_percent sys;
  temp ← try_except (thermal_zone0 sys)
           (probe_sensors sys ["cpu_thermal"; "cpu-thermal"; "coretemp"] 0%Q);
  mret ("CPU:" +:+ fmt_f 0 pct +:+ "%  T:" +:+ fmt_f 1 temp +:+ "C").

(** [s.replace(old, new)] for a non-empty [old]: occurrences are replaced
    from the left and do not overlap; [skip] counts the characters of a
    replaced occurrence still to be dropped. *)
Fixpoint replace_go (old new : string) (skip : nat) (s : string) : string :=
  match s with
  | EmptyString => EmptyString
  | String c s' =>
      match skip with
      | S k => replace_go old new k s'
      | O =>
          if String.prefix old s
          then new +:+ replace_go old new (String.length old - 1) s'
          else String c (replace_go old new 0 s')
      end
  end.

Definition str_replace (s old new : string) : string := replace_go old new 0 s.

(** [sep.join(parts)]. *)
Fixpoint str_join (sep : string) (parts : list string) : string :=
  match parts with
  | [] => ""
  | [p] => p
  | p :: rest => p +:+ sep +:+ str_join sep rest
  end.

(** [a or b] on strings. *)
Definition str_or (a b : string) : string :=
  match a with EmptyString => b | _ => a end.

(** The inner loop of [get_network]: does the interface have an IPv4
    address outside 127.0.0.0/8? *)
Definition has_ipv4 (addrs : list snicaddr) : bool :=
  existsb (fun addr => bool_decide (family addr = AF_INET)
                       && negb (String.prefix "127." (address addr))) addrs.

(** The outer loop of [get_network] over [net_if_stats().items()]. *)
Fixpoint collect_ifaces (sys : System) (stats : list (string * bool))
    : Exc (list string) :=
  match stats with
  | [] => Ok []
  | (iface, isup) :: rest =>
      here ← (if isup && bool_decide (iface ≠ "lo")
              then addrs ← net_if_addrs sys;
                   mret (if has_ipv4 (default [] (addrs !! iface))
                         then [String.substring 0 5 (str_replace iface "ethernet" "eth")]
                         else [])
              else mret []);
      more ← collect_ifaces sys rest;
      mret (here ++ more)
  end.

Definition get_network (sys : System) : Exc string :=
  let up := match tcp_probe sys with Ok _ => true | Raise _ => false end in
  stats ← net_if_stats sys;
  ifaces ← collect_ifaces sys stats;
  mret ("Net:" +:+ str_or (str_join "&" ifaces) "None"
          +:+ " [" +:+ (if up then "UP" else "DOWN") +:+ "]").

Definition disk_line (u : sdiskusage) : string :=
  "Disk:" +:+ fmt_f 1 (py_truediv (used u) (1024 ^ 3))
    +:+ "/" +:+ fmt_f 0 (py_truediv (total u) (1024 ^ 3))
    +:+ "GB " +:+ fmt_f 0 (percent u) +:+ "%".

Definition get_disk (sys : System) : Exc string :=
  u ← disk_usage_root sys; mret (disk_line u).

Definition get_time (sys : System) : string :=
  let '(h, m, s) := datetime_now sys in
  "Time:" +:+ digits_fixed 2 h +:+ ":" +:+ digits_fixed 2 m +:+ ":" +:+ digits_fixed 2 s.

(** ** Shared data store *)

(** The lock makes [refresh]'s update and [get] atomic with respect to each
    other; each is one step of the embedding. *)
Record DataStore : Type := { _data : gmap string string }.

(** The dictionary [new] of [refresh], its six entries evaluated in source
    order. *)
Definition collect (sys : System) : Exc (gmap string string) :=
  ip ← get_ip sys;
  hostname ← get_hostname sys;
  ram ← get_ram_label sys;
  cpu ← get_cpu sys;
  network ← get_network sys;
  disk ← get_disk sys;
  mret (<["ip" := ip]> (<["hostname" := hostname]> (<["ram" := ram]>
         (<["cpu" := cpu]> (<["network" := network]> (<["disk" := disk]> ∅)))))).

(** [dict.update]: the entries of [new] replace or extend those of [d]. *)
Definition dict_update (d new : gmap string string) : gmap string string := new ∪ d.

Definition refresh (sys : System) (self : DataStore) : Exc DataStore :=
  new ← collect sys;
  mret {| _data := dict_update (_data self) new |}.

Definition DataStore_init (sys : System) : Exc DataStore :=
  refresh sys {| _data := ∅ |}.

Definition get (self : DataStore) (key : string) : string :=
  default "" (_data self !! key).

(** One round of the loop of [background_refresh], after its sleep: the
    store and what has been printed so far. *)
Definition background_refresh_step (sys : System) (st : DataStore * list string)
    : DataStore * list string :=
  match refresh sys (fst st) with
  | Ok store' => (store', snd st)
  | Raise e => (fst st, snd st ++ ["Refresh error: " +:+ e])
  end.

(** The loop of [background_refresh] over the systems observed at its
    successive rounds. *)
Definition background_refresh (rounds : list System) (st : DataStore * list string)
    : DataStore * list string :=
  foldl (fun st sys => background_refresh_step sys st) st rounds.

(** The six keys of the store. *)
Definition metric_keys : list string :=
  ["ip"; "hostname"; "ram"; "cpu"; "network"; "disk"].

(** ** The imaging library *)

(** How a pixel lies with respect to an ellipse. *)
Inductive EllipsePart : Type := Outside | Interior | Border.

(** What the program uses of PIL's fonts and shapes.  A font is compared by
    identity.  [getbbox f text] is the bounding box (left, top, right,
    bottom) of [text]; [text_mask f text dx dy] tells whether drawing [text]
    inks the pixel [dx] to the right of and [dy] below the drawing position;
    [ellipse_part box x y] classifies the pixel [(x, y)] for the ellipse
    inscribed in [box]. *)
Class PIL : Type := {
  Font : Type;
  #[global] Font_eq_dec :: EqDecision Font;
  font : Font;
  font_bold : Font;
  getbbox : Font → string → Z * Z * Z * Z;
  text_mask : Font → string → Z → Z → bool;
  ellipse_part : Z * Z * Z * Z → Z → Z → EllipsePart
}.

(** An image of mode "1": a size and the pixels, lit ([true], 255) or dark
    ([false], 0). *)
Record Image : Type := { im_w : Z; im_h : Z; im_px : Z → Z → bool }.

Definition inside (im : Image) (x y : Z) : bool :=
  (0 <=? x) && (x <? im_w im) && (0 <=? y) && (y <? im_h im).

Definition in_box (box : Z * Z * Z * Z) (x y : Z) : bool :=
  let '(x0, y0, x1, y1) := box in
  (x0 <=? x) && (x <? x1) && (y0 <=? y) && (y <? y1).

Definition getpixel (im : Image) (x y : Z) : bool :=
  inside im x y && im_px im x y.

(** [Image.new("1", (w, h), 0)]. *)
Definition Image_new (w h : Z) : Image :=
  {| im_w := w; im_h := h; im_px := fun _ _ => false |}.

(** [im.crop((left, upper, right, lower))]; what lies outside [im] is dark. *)
Definition crop (im : Image) (box : Z * Z * Z * Z) : Image :=
  let '(x0, y0, x1, y1) := box in
  {| im_w := x1 - x0; im_h := y1 - y0;
     im_px := fun x y => getpixel im (x0 + x) (y0 + y) |}.

(** [im.paste(src, (x0, y0))]: the pixels of [src] replace those of [im]
    where [src] lands inside [im]. *)
Definition paste (im src : Image) (pos : Z * Z) : Image :=
  let '(x0, y0) := pos in
  {| im_w := im_w im; im_h := im_h im;
     im_px := fun x y =>
       if inside im x y && in_box (x0, y0, x0 + im_w src, y0 + im_h src) x y
       then getpixel src (x - x0) (y - y0)
       else im_px im x y |}.

Section Drawing.
Context `{PIL}.

(** [ImageDraw.Draw(im).text(pos, text, font=f, fill=255)]. *)
Definition draw_text (im : Image) (pos : Z * Z) (text : string) (f : Font) : Image :=
  let '(x0, y0) := pos in
  {| im_w := im_w im; im_h := im_h im;
     im_px := fun x y =>
       if inside im x y && text_mask f text (x - x0) (y - y0)
       then true
       else im_px im x y |}.

(** [draw.line([(x0, y), (x1, y)], fill=255)], a horizontal line with both
    ends included. *)
Definition draw_hline (im : Image) (x0 x1 y : Z) : Image :=
  {| im_w := im_w im; im_h := im_h im;
     im_px := fun x y' =>
       if inside im x y' && (y' =? y) && (x0 <=? x) && (x <=? x1)
       then true
       else im_px im x y' |}.

(** [draw.ellipse([x0, y0, x1, y1], fill=fill, outline=255)]: the ellipse
    lies within its box, both corners included. *)
Definition draw_ellipse (im : Image) (box : Z * Z * Z * Z) (fill : bool) : Image :=
  let '(x0, y0, x1, y1) := box in
  {| im_w := im_w im; im_h := im_h im;
     im_px := fun x y =>
       if inside im x y && in_box (x0, y0, x1 + 1, y1 + 1) x y
       then match ellipse_part box x y with
            | Border => true
            | Interior => fill
            | Outside => im_px im x y
            end
       else im_px im x y |}.

(** ** Scroller *)

Definition text_px_width (text : string) (f : Font) : Z :=
  let '(x0, _, x1, _) := getbbox f text in x1 - x0.

Record Scroller : Type := {
  offset : Z;
  _text : string;
  _font : Font;
  _width : Z;
  _scrolling : bool;
  _max_h : Z
}.

Definition Scroller_init (max_height : Z) : Scroller :=
  {| offset := 0; _text := ""; _font := font; _width := 0;
     _scrolling := false; _max_h := max_height |}.

Definition set (self : Scroller) (text : string) (f : option Font) : Scroller :=
  let f := default font f in
  if bool_decide (text ≠ _text self) || bool_decide (f ≠ _font self)
  then {| offset := 0; _text := text; _font := f;
          _width := text_px_width text f;
          _scrolling := DISPLAY_W <? text_px_width text f;
          _max_h := _max_h self |}
  else self.

Definition with_offset (self : Scroller) (o : Z) : Scroller :=
  {| offset := o; _text := _text self; _font := _font self;
     _width := _width self; _scrolling := _scrolling self;
     _max_h := _max_h self |}.

Definition reset (self : Scroller) : Scroller := with_offset self 0.

Definition tick (self : Scroller) : Scroller :=
  if _scrolling self
  then let o := offset self + SCROLL_SPEED in
       if _width self + SCROLL_GAP <=? o
       then with_offset self 0
       else with_offset self o
  else self.

(** The band of a scrolling line before it is cropped: the text drawn
    twice, one loop width apart. *)
Definition scroll_band (self : Scroller) : Image :=
  let loop_w := _width self + SCROLL_GAP in
  let tmp := Image_new (loop_w * 2) (_max_h self) in
  let tmp := draw_text tmp (0, 0) (_text self) (_font self) in
  draw_text tmp (loop_w, 0) (_text self) (_font self).

(** The band pasted at row [y]: what [draw_onto] calls [tmp] for a line
    that fits, and [crop] for a line that scrolls. *)
Definition line_band (self : Scroller) : Image :=
  if negb (_scrolling self)
  then draw_text (Image_new DISPLAY_W (_max_h self)) (0, 0) (_text self) (_font self)
  else crop (scroll_band self)
            (offset self, 0, offset self + DISPLAY_W, _max_h self).

Definition draw_onto (self : Scroller) (image : Image) (y : Z) : Image :=
  paste image (line_band self) (0, y).
End Drawing.

(** ** Main *)

(** The page of the wall-clock reading [now] (seconds, [time.time()]).  The
    quotient is taken exactly: for a double at or after the epoch the
    rounded quotient by 5 has the same integer part. *)
Definition page_index (now : Q) : Z :=
  py_int (now / inject_Z PAGE_FLIP_SEC) mod 2.

(** What one round of the main loop reads: the clock, the store as the
    background thread has left it, and the system for [get_time]. *)
Record Moment : Type := { now : Q; store : DataStore; sys_now : System }.

Section Main.
Context `{PIL}.

(** The local variables of [main] that live across rounds. *)
Record Loop : Type := {
  s1 : Scroller;
  s2 : Scroller;
  s3 : Scroller;
  s4 : Scroller;
  last_page : Z
}.

Definition main_init : Loop :=
  {| s1 := Scroller_init LINE_HEIGHT; s2 := Scroller_init LINE_HEIGHT;
     s3 := Scroller_init LINE_HEIGHT; s4 := Scroller_init LINE_HEIGHT;
     last_page := -1 |}.

(** Reset bottom scrollers on page flip. *)
Definition page_sync (page : Z) (l : Loop) : Loop :=
  if bool_decide (page ≠ last_page l)
  then {| s1 := s1 l; s2 := s2 l; s3 := reset (s3 l); s4 := reset (s4 l);
          last_page := page |}
  else l.

(** Compose text for each line. *)
Definition compose (page : Z) (m : Moment) (l : Loop) : Loop :=
  let st := store m in
  {| s1 := set (s1 l) ("IP:" +:+ get st "ip") (Some font_bold);
     s2 := set (s2 l) (get st "hostname" +:+ "  " +:+ get st "ram") (Some font);
     s3 := if page =? 0 then set (s3 l) (get st "cpu") (Some font)
           else set (s3 l) (get st "disk") (Some font);
     s4 := if page =? 0 then set (s4 l) (get st "network") (Some font)
           else set (s4 l) (get_time (sys_now m)) (Some font);
     last_page := last_page l |}.

(** Render: the four lines, then the divider, then the page dots. *)
Definition render (page : Z) (l : Loop) : Image :=
  let image := Image_new DISPLAY_W DISPLAY_H in
  let image := draw_onto (s1 l) image Y_LINE1 in
  let image := draw_onto (s2 l) image Y_LINE2 in
  let image := draw_onto (s3 l) image Y_LINE3 in
  let image := draw_onto (s4 l) image Y_LINE4 in
  let image := draw_hline image 0 DISPLAY_W Y_DIVIDER in
  let dot_y := DISPLAY_H - 5 in
  let image := draw_ellipse image (DISPLAY_W - 13, dot_y, DISPLAY_W - 9, dot_y + 4)
                            (page =? 0) in
  draw_ellipse image (DISPLAY_W - 7, dot_y, DISPLAY_W - 3, dot_y + 4) (page =? 1).

(** Advance scrollers. *)
Definition advance (l : Loop) : Loop :=
  {| s1 := tick (s1 l); s2 := tick (s2 l); s3 := tick (s3 l); s4 := tick (s4 l);
     last_page := last_page l |}.

(** The scrollers as they are when the frame of this round is drawn. *)
Definition prepare (m : Moment) (l : Loop) : Loop :=
  let page := page_index (now m) in
  compose page m (page_sync page l).

(** One round of [while True]: the frame handed to [device.display] and
    the state the next round starts from. *)
Definition main_round (m : Moment) (l : Loop) : Image * Loop :=
  let l' := prepare m l in
  (render (page_index (now m)) l', advance l').

(** The rounds of the main loop over the successive moments, with the
    frames displayed, oldest first. *)
Fixpoint main_loop (ms : list Moment) (l : Loop) : list Image * Loop :=
  match ms with
  | [] => ([], l)
  | m :: rest =>
      let '(frame, l') := main_round m l in
      let '(frames, l'') := main_loop rest l' in
      (frame :: frames, l'')
  end.
End Main.

(** ** Histories of a scroller *)

Section History.
Context `{PIL}.

(** The calls the main loop makes on a scroller. *)
Inductive ScrollerOp : Type :=
| OpSet (text : string) (f : option Font)
| OpReset
| OpTick.

Definition apply_op (self : Scroller) (op : ScrollerOp) : Scroller :=
  match op with
  | OpSet text f => set self text f
  | OpReset => reset self
  | OpTick => tick self
  end.

(** The scroller after the calls [ops], oldest first. *)
Definition run_ops (ops : list ScrollerOp) (self : Scroller) : Scroller :=
  foldl apply_op self ops.

(** [n] calls of [tick] in a row. *)
Definition ticks (n : nat) (self : Scroller) : Scroller := Nat.iter n tick self.

(** One period of a scrolling line: the text drawn once on a band one loop
    width wide, the gap left dark. *)
Definition scroll_tile (self : Scroller) : Image :=
  draw_text (Image_new (_width self + SCROLL_GAP) (_max_h self))
            (0, 0) (_text self) (_font self).

(** What every scroller the program builds satisfies: the line scrolls
    exactly when it is wider than the display, a line that fits stays at
    offset 0, and a scrolling line stays within one loop. *)
Definition scroller_ok (self : Scroller) : Prop :=
  _scrolling self = (DISPLAY_W <? _width self)
  ∧ (if _scrolling self
     then 0 ≤ offset self < _width self + SCROLL_GAP
     else offset self = 0).
End History.

(** [ceil(a / b)] for a positive [b]. *)
Definition ceil_div (a b : Z) : Z := (a + b - 1) / b.

(** How many times consecutive entries of [pages] differ. *)
Fixpoint flips (pages : list Z) : nat :=
  match pages with
  | p :: (q :: _) as rest => ((if bool_decide (p = q) then 0 else 1) + flips rest)%nat
  | _ => 0%nat
  end.

(** Clock readings that never go back. *)
Fixpoint chronological (ts : list Q) : Prop :=
  match ts with
  | t :: (u :: _) as rest => (t <= u)%Q ∧ chronological rest
  | _ => True
  end.

(** The page-duration window a reading falls in. *)
Definition window (t : Q) : Z := Qfloor (t / inject_Z PAGE_FLIP_SEC).

(** The tier of a RAM label. *)
Definition label_tier (label : string) : Z :=
  if bool_decide (label = "2GB") then 2
  else if bool_decide (label = "4GB") then 4
  else 8.

(** ** Sample inputs *)

Module Sample.
Inductive Face : Type := Regular | Bold.

#[global] Instance Face_eq_dec : EqDecision Face.
Proof. solve_decision. Defined.

Definition advance_px (f : Face) : Z :=
  match f with Regular => 10 | Bold => 11 end.

(** A fixed-pitch font whose glyphs are taller than a line: every glyph
    inks a checkerboard 20 rows high. *)
#[global] Instance fixed_pitch : PIL := {|
  Font := Face;
  font := Regular;
  font_bold := Bold;
  getbbox := fun f text => (0, 0, advance_px f * Z.of_nat (String.length text), 11);
  text_mask := fun f text dx dy =>
    (0 <=? dx) && (dx <? advance_px f * Z.of_nat (String.length text))
    && (-3 <=? dy) && (dy <? 17) && Z.even (dx + dy);
  ellipse_part := fun box x y =>
    let '(x0, y0, x1, y1) := box in
    if (x0 <? x) && (x <? x1) && (y0 <? y) && (y <? y1) then Interior
    else if (x0 <=? x) && (x <=? x1) && (y0 <=? y) && (y <=? y1) then Border
    else Outside
|}.

Definition healthy : System := {|
  udp_sockname := Ok "192.168.1.50";
  gethostname := Ok "pi-node-1";
  virtual_memory_total := Ok 3981234176;
  cpu_percent := Ok (25 # 2);
  thermal_zone0 := Ok (48312 # 1000);
  sensors_temperatures := Ok ∅;
  tcp_probe := Ok tt;
  net_if_stats := Ok [("lo", true); ("ethernet0", true); ("wlan0", false)];
  net_if_addrs :=
    Ok (<["lo" := [ {| family := AF_INET; address := "127.0.0.1" |} ] ]>
        (<["ethernet0" := [ {| family := AF_PACKET; address := "dc:a6:32:00:00:01" |};
                            {| family := AF_INET; address := "192.168.1.50" |} ] ]> ∅));
  disk_usage_root := Ok {| total := 63350767616; used := 13207024435;
                           free := 50143743181; percent := 21 # 1 |};
  datetime_now := (9, 5, 7)
|}.

(** The same host a little later with its network cable pulled and no
    temperature source. *)
Definition offline : System := {|
  udp_sockname := Raise "Network is unreachable";
  gethostname := gethostname healthy;
  virtual_memory_total := virtual_memory_total healthy;
  cpu_percent := Ok (3 # 1);
  thermal_zone0 := Raise "No such file or directory";
  sensors_temperatures := Ok (<["nvme" := [ (30 # 1)%Q ] ]> ∅);
  tcp_probe := Raise "Network is unreachable";
  net_if_stats := Ok [("lo", true); ("ethernet0", false)];
  net_if_addrs := net_if_addrs healthy;
  disk_usage_root := disk_usage_root healthy;
  datetime_now := (9, 5, 10)
|}.

(** The healthy host with a new address and a root file system that
    cannot be read. *)
Definition disk_down : System := {|
  udp_sockname := Ok "10.0.0.7";
  gethostname := gethostname healthy;
  virtual_memory_total := virtual_memory_total healthy;
  cpu_percent := cpu_percent healthy;
  thermal_zone0 := thermal_zone0 healthy;
  sensors_temperatures := sensors_temperatures healthy;
  tcp_probe := tcp_probe healthy;
  net_if_stats := net_if_stats healthy;
  net_if_addrs := net_if_addrs healthy;
  disk_usage_root := Raise "Input/output error";
  datetime_now := (9, 5, 13)
|}.

Definition store0 : DataStore :=
  match DataStore_init healthy with
  | Ok s => s
  | Raise _ => {| _data := ∅ |}
  end.

(** Fourteen characters: 140 pixels in the regular face. *)
Definition wide_text : string := "pi-node-1  4GB".
End Sample.

(** ** Reading the output back *)

(** The value of a decimal digit character. *)
Definition digit_value (c : Ascii.ascii) : Z :=
  Z.of_nat (Ascii.nat_of_ascii c) - 48.

(** The number a string of decimal digits denotes, continuing from [acc]. *)
Fixpoint parse_digits (acc : Z) (s : string) : Z :=
  match s with
  | EmptyString => acc
  | String c s' => parse_digits (acc * 10 + digit_value c) s'
  end.

(** Whether every collector of a refresh returns. *)
Definition collects (sys : System) : bool :=
  match collect sys with
  | Ok _ => true
  | Raise _ => false
  end.

(** ** More sample inputs *)

Module Bench.
(** A host without a thermal zone file whose sensors answer under the
    second and third key. *)
Definition sensor_fallback : System := {|
  udp_sockname := udp_sockname Sample.healthy;
  gethostname := gethostname Sample.healthy;
  virtual_memory_total := virtual_memory_total Sample.healthy;
  cpu_percent := Ok (7 # 1);
  thermal_zone0 := Raise "No such file or directory";
  sensors_temperatures :=
    Ok (<["cpu_thermal" := [] ]> (<["cpu-thermal" := [ (512 # 10)%Q ] ]>
        (<["coretemp" := [ (60 # 1)%Q; (61 # 1)%Q ] ]> ∅)));
  tcp_probe := tcp_probe Sample.healthy;
  net_if_stats := Ok [("lo", true); ("wlan0", false)];
  net_if_addrs := Raise "Permission denied";
  disk_usage_root := disk_usage_root Sample.healthy;
  datetime_now := (23, 59, 59)
|}.
End Bench.

(** A font whose glyphs start one column left of the drawing position:
    the bounding box of a text begins at -1 and its ink fills the box. *)
Module Overhang.
Definition left_bearing : PIL := {|
  Font := unit;
  font := tt;
  font_bold := tt;
  getbbox := fun _ text => (-1, 0, 10 * Z.of_nat (String.length text) - 1, 11);
  text_mask := fun _ text dx dy =>
    (-1 <=? dx) && (dx <? 10 * Z.of_nat (String.length text) - 1)
    && (0 <=? dy) && (dy <? 11);
  ellipse_part := fun _ _ _ => Outside
|}.
End Overhang.

(** ** Failures no collector absorbs *)

(** The calls of the collectors that are not inside a [try], or that are
    reached from inside an [except] handler: [sensors_temperatures] is only
    called once the thermal zone has failed, [net_if_addrs] only for an
    interface that is up and not "lo". *)
Definition unguarded_failure (sys : System) : Prop :=
  (∃ e, gethostname sys = Raise e)
  ∨ (∃ e, virtual_memory_total sys = Raise e)
  ∨ (∃ e, cpu_percent sys = Raise e)
  ∨ (∃ e e', thermal_zone0 sys = Raise e ∧ sensors_temperatures sys = Raise e')
  ∨ (∃ e, net_if_stats sys = Raise e)
  ∨ (∃ e stats iface, net_if_stats sys = Ok stats ∧ (iface, true) ∈ stats
                      ∧ iface ≠ "lo" ∧ net_if_addrs sys = Raise e)
  ∨ (∃ e, disk_usage_root sys = Raise e).

(** * Part II: properties *)

(** ** The RAM label *)

Lemma gib_lt (a k : Z) : (py_truediv a (1024 ^ 3) < inject_Z k)%Q ↔ a < k * 1024 ^ 3.
Proof.
  change (1024 ^ 3) with 1073741824.
  unfold py_truediv, Qlt, Qdiv, Qmult, Qinv, inject_Z; simpl. lia.
Qed.

Lemma ram_label_cases (t : Z) :
  ram_label t = if t <? 3 * 1024 ^ 3 then "2GB"
                else if t <? 6 * 1024 ^ 3 then "4GB" else "8GB".
Proof.
  unfold ram_label.
  destruct (Qlt_le_dec _ 3) as [H3|H3].
  - apply (gib_lt t 3) in H3. apply Z.ltb_lt in H3. now rewrite H3.
  - apply Qle_not_lt in H3. rewrite (gib_lt t 3) in H3.
    apply Z.ltb_nlt in H3. rewrite H3.
    destruct (Qlt_le_dec _ 6) as [H6|H6].
    + apply (gib_lt t 6) in H6. apply Z.ltb_lt in H6. now rewrite H6.
    + apply Qle_not_lt in H6. rewrite (gib_lt t 6) in H6.
      apply Z.ltb_nlt in H6. now rewrite H6.
Qed.

(** C10.  Whatever total memory is reported, the label is "2GB" below
    3 GiB, "4GB" from 3 GiB up to but not including 6 GiB, and "8GB" from
    6 GiB on; it is one of these three strings, it never decreases when the
    memory grows, and [get_ram_label] returns it whenever the memory size
    can be read. *)
Theorem ram_label_tiers (t t' : Z) (sys : System) :
  t ≤ t' →
  ram_label t = (if t <? 3 * 1024 ^ 3 then "2GB"
                 else if t <? 6 * 1024 ^ 3 then "4GB" else "8GB")
  ∧ ram_label t ∈ ["2GB"; "4GB"; "8GB"]
  ∧ label_tier (ram_label t) ≤ label_tier (ram_label t')
  ∧ (virtual_memory_total sys = Ok t → get_ram_label sys = Ok (ram_label t)).
Proof.
  intros Hle. rewrite !ram_label_cases.
  split; [reflexivity|]. split; [|split].
  - repeat case_match; set_solver.
  - change (1024 ^ 3) with 1073741824.
    repeat match goal with
           | |- context [?a <? ?b] => destruct (Z.ltb_spec a b)
           end; first [lia | vm_compute; discriminate].
  - intros Hv. unfold get_ram_label. rewrite Hv. simpl.
    now rewrite ram_label_cases.
Qed.

Lemma ram_label_tiers_witness :
  2 * 1024 ^ 3 ≤ 7 * 1024 ^ 3
  ∧ ram_label (2 * 1024 ^ 3) = "2GB"
  ∧ label_tier (ram_label (2 * 1024 ^ 3)) ≤ label_tier (ram_label (7 * 1024 ^ 3))
  ∧ get_ram_label Sample.healthy = Ok "4GB".
Proof.
  assert (Hle : 2 * 1024 ^ 3 ≤ 7 * 1024 ^ 3) by (vm_compute; discriminate).
  destruct (ram_label_tiers _ _ Sample.healthy Hle) as (Hc & _ & Hm & _).
  destruct (ram_label_tiers 3981234176 3981234176 Sample.healthy (Z.le_refl _))
    as (Hc' & _ & _ & Hg).
  split; [exact Hle|]. split; [exact Hc|]. split; [exact Hm|].
  rewrite (Hg eq_refl). rewrite Hc'. reflexivity.
Defined.

(** ** The page index *)

Lemma py_int_floor (x : Q) : (0 <= x)%Q → py_int x = Qfloor x.
Proof.
  destruct x as [n d]. unfold Qle, py_int, Qfloor; simpl. intros Hn.
  apply Z.quot_div_nonneg; lia.
Qed.

Lemma flip_quotient_nonneg (t : Q) : (0 <= t)%Q → (0 <= t / inject_Z PAGE_FLIP_SEC)%Q.
Proof.
  destruct t as [n d]. unfold Qle, Qdiv, Qmult, Qinv, inject_Z, PAGE_FLIP_SEC; simpl. lia.
Qed.

Lemma page_index_window (t : Q) : (0 <= t)%Q → page_index t = window t mod 2.
Proof.
  intros Ht. unfold page_index, window.
  now rewrite py_int_floor by now apply flip_quotient_nonneg.
Qed.

Lemma page_index_bit (t : Q) : page_index t = 0 ∨ page_index t = 1.
Proof.
  unfold page_index. pose proof (Z.mod_pos_bound (py_int (t / inject_Z PAGE_FLIP_SEC)) 2).
  lia.
Qed.

Lemma window_mono (t u : Q) : (t <= u)%Q → window t ≤ window u.
Proof.
  intros Htu. unfold window. apply Qfloor_resp_le.
  unfold Qdiv. apply Qmult_le_compat_r; [exact Htu|].
  unfold Qle, Qinv, inject_Z, PAGE_FLIP_SEC; simpl. lia.
Qed.

Lemma last_cons_default (l : list Q) (v d d' : Q) :
  List.last (v :: l) d = List.last (v :: l) d'.
Proof.
  revert v. induction l as [|w l IH]; intros v; [reflexivity|].
  change (List.last (w :: l) d = List.last (w :: l) d'). apply IH.
Qed.

Lemma last_cons (l : list Q) (u t : Q) : List.last (u :: l) t = List.last l u.
Proof.
  destruct l as [|v l]; [reflexivity|].
  change (List.last (v :: l) t = List.last (v :: l) u). apply last_cons_default.
Qed.

Lemma chronological_last (l : list Q) (t : Q) :
  chronological (t :: l) → (t <= List.last l t)%Q.
Proof.
  revert t. induction l as [|u l IH]; intros t Hc.
  - apply Qle_refl.
  - destruct Hc as [Htu Hc]. specialize (IH u Hc).
    rewrite last_cons. eapply Qle_trans; eassumption.
Qed.

Lemma flips_cons2 (p q : Z) (rest : list Z) :
  flips (p :: q :: rest)
  = ((if bool_decide (p = q) then 0 else 1) + flips (q :: rest))%nat.
Proof. reflexivity. Qed.

Lemma same_window_no_flip (l : list Q) (t : Q) :
  (0 <= t)%Q → chronological (t :: l) → window (List.last l t) = window t →
  Forall (λ u, page_index u = page_index t) l
  ∧ flips (map page_index (t :: l)) = 0%nat.
Proof.
  revert t. induction l as [|u l IH]; intros t Ht Hc Hw.
  - split; [constructor | reflexivity].
  - destruct Hc as [Htu Hc]. rewrite last_cons in Hw.
    assert (Hu : (0 <= u)%Q) by (eapply Qle_trans; eassumption).
    pose proof (window_mono _ _ Htu) as M1.
    pose proof (window_mono _ _ (chronological_last _ _ Hc)) as M2.
    assert (Ewin : window u = window t) by lia.
    assert (Epage : page_index u = page_index t)
      by (rewrite !page_index_window by assumption; now rewrite Ewin).
    destruct (IH u Hu Hc) as [Hall Hfl]; [lia|].
    split.
    + constructor; [exact Epage|].
      eapply Forall_impl; [exact Hall|]. simpl. intros v Hv. now rewrite Hv.
    + change (map page_index (t :: u :: l))
        with (page_index t :: page_index u :: map page_index l).
      rewrite flips_cons2. change (page_index u :: map page_index l)
        with (map page_index (u :: l)). rewrite Hfl.
      rewrite bool_decide_eq_true_2 by (symmetry; exact Epage). reflexivity.
Qed.

Lemma next_window_flips (t u : Q) :
  (0 <= t)%Q → (0 <= u)%Q → window u = window t + 1 →
  page_index u = 1 - page_index t.
Proof.
  intros Ht Hu Hw. rewrite !page_index_window by assumption. rewrite Hw.
  Z.to_euclidean_division_equations. lia.
Qed.

Lemma next_window_one_flip (l : list Q) (t : Q) :
  (0 <= t)%Q → chronological (t :: l) → window (List.last l t) = window t + 1 →
  flips (map page_index (t :: l)) = 1%nat.
Proof.
  revert t. induction l as [|u l IH]; intros t Ht Hc Hw.
  - simpl in Hw. lia.
  - destruct Hc as [Htu Hc]. rewrite last_cons in Hw.
    assert (Hu : (0 <= u)%Q) by (eapply Qle_trans; eassumption).
    pose proof (window_mono _ _ Htu) as M1.
    pose proof (window_mono _ _ (chronological_last _ _ Hc)) as M2.
    change (map page_index (t :: u :: l))
      with (page_index t :: page_index u :: map page_index l).
    rewrite flips_cons2.
    change (page_index u :: map page_index l) with (map page_index (u :: l)).
    destruct (decide (window u = window t)) as [Esame|Ediff].
    + rewrite (IH u Hu Hc) by lia.
      rewrite bool_decide_eq_true_2; [reflexivity|].
      rewrite !page_index_window by assumption. now rewrite Esame.
    + assert (Enext : window u = window t + 1) by lia.
      destruct (same_window_no_flip l u Hu Hc) as [_ ->]; [lia|].
      pose proof (next_window_flips t u Ht Hu Enext) as Hflip.
      rewrite bool_decide_eq_false_2; [reflexivity|].
      destruct (page_index_bit t); lia.
Qed.

Section PageIndex.
Context `{PIL}.

Lemma main_round_last_page (m : Moment) (l : Loop) :
  last_page (snd (main_round m l)) = page_index (now m).
Proof.
  unfold main_round, prepare, page_sync; simpl.
  case_bool_decide as Hp; simpl; [reflexivity|].
  destruct (decide (page_index (now m) = last_page l)); [congruence|contradiction].
Qed.

(** C1.  The page the main loop computes in a round is its state's
    [last_page] afterwards and depends on the clock reading alone: for a
    reading [t] at or after the epoch it is [floor (t / 5) mod 2], one of 0
    and 1.  Along readings that never go back, while the last reading is
    in the window of the first all readings give the same page and the
    page never flips; when the last reading is in the next window the page
    there is the other one and it has flipped exactly once on the way. *)
Theorem page_index_clock (t : Q) (later : list Q) (m : Moment) (l : Loop) :
  (0 <= t)%Q → chronological (t :: later) →
  last_page (snd (main_round m l)) = page_index (now m)
  ∧ page_index t = Qfloor (t / inject_Z 5) mod 2
  ∧ (page_index t = 0 ∨ page_index t = 1)
  ∧ (window (List.last later t) = window t →
       Forall (λ u, page_index u = page_index t) later
       ∧ flips (map page_index (t :: later)) = 0%nat)
  ∧ (window (List.last later t) = window t + 1 →
       page_index (List.last later t) = 1 - page_index t
       ∧ flips (map page_index (t :: later)) = 1%nat).
Proof.
  intros Ht Hc. split; [apply main_round_last_page|].
  split; [exact (page_index_window t Ht)|].
  split; [apply page_index_bit|]. split.
  - intros Hw. now apply same_window_no_flip.
  - intros Hw. split; [|now apply next_window_one_flip].
    apply next_window_flips; [exact Ht| |exact Hw].
    eapply Qle_trans; [exact Ht|]. now apply chronological_last.
Qed.
End PageIndex.

Lemma page_index_clock_witness :
  page_index (49 # 10) = 0
  ∧ page_index (51 # 10) = 1
  ∧ flips (map page_index [49 # 10; 499 # 100; 5 # 1; 51 # 10]) = 1%nat
  ∧ Forall (λ u, page_index u = page_index (5 # 1)) [51 # 10; 99 # 10].
Proof.
  assert (H0 : (0 <= 49 # 10)%Q) by (vm_compute; discriminate).
  assert (Hc : chronological [49 # 10; 499 # 100; 5 # 1; 51 # 10])
    by (vm_compute; repeat split; discriminate).
  destruct (page_index_clock (H := Sample.fixed_pitch) (49 # 10)
              [499 # 100; 5 # 1; 51 # 10]
              {| now := 49 # 10; store := Sample.store0; sys_now := Sample.healthy |}
              main_init H0 Hc) as (_ & Hp & _ & _ & Hnext).
  destruct (Hnext eq_refl) as [Hq Hf].
  assert (H5 : (0 <= 5 # 1)%Q) by (vm_compute; discriminate).
  assert (Hc5 : chronological [5 # 1; 51 # 10; 99 # 10])
    by (vm_compute; repeat split; discriminate).
  destruct (page_index_clock (H := Sample.fixed_pitch) (5 # 1) [51 # 10; 99 # 10]
              {| now := 5 # 1; store := Sample.store0; sys_now := Sample.healthy |}
              main_init H5 Hc5) as (_ & _ & _ & Hsame & _).
  destruct (Hsame eq_refl) as [Hall _].
  split; [rewrite Hp; reflexivity|].
  change (List.last _ _) with (51 # 10)%Q in Hq.
  split; [rewrite Hq, Hp; reflexivity|].
  split; [exact Hf | exact Hall].
Defined.

(** ** The scroller *)

Section ScrollerProps.
Context `{PIL}.

Lemma scroller_ok_init (max_height : Z) : scroller_ok (Scroller_init max_height).
Proof. split; reflexivity. Qed.

Lemma scroller_ok_set (self : Scroller) (text : string) (f : option Font) :
  scroller_ok self → scroller_ok (set self text f).
Proof.
  intros Hok. unfold set.
  destruct (_ || _); [|exact Hok].
  split; simpl; [reflexivity|].
  destruct (Z.ltb_spec DISPLAY_W (text_px_width text (default font f)));
    unfold DISPLAY_W, SCROLL_GAP in *; lia.
Qed.

Lemma scroller_ok_reset (self : Scroller) : scroller_ok self → scroller_ok (reset self).
Proof.
  intros [Hs Ho]. split; simpl; [exact Hs|].
  rewrite Hs in *. destruct (Z.ltb_spec DISPLAY_W (_width self));
    unfold DISPLAY_W, SCROLL_GAP in *; lia.
Qed.

Lemma scroller_ok_tick (self : Scroller) : scroller_ok self → scroller_ok (tick self).
Proof.
  intros Hok. unfold tick.
  destruct (_scrolling self) eqn:Escr; [|exact Hok].
  destruct Hok as [Hs Ho]. rewrite Escr in Hs, Ho.
  destruct (Z.leb_spec (_width self + SCROLL_GAP) (offset self + SCROLL_SPEED));
    (split; simpl; rewrite Escr; [exact Hs|]);
    unfold SCROLL_SPEED, SCROLL_GAP in *; lia.
Qed.

Lemma scroller_ok_run (ops : list ScrollerOp) (self : Scroller) :
  scroller_ok self → scroller_ok (run_ops ops self).
Proof.
  revert self. induction ops as [|op ops IH]; intros self Hok; [exact Hok|].
  apply IH. destruct op; simpl;
    auto using scroller_ok_set, scroller_ok_reset, scroller_ok_tick.
Qed.

Lemma ticks_succ (n : nat) (self : Scroller) : ticks (S n) self = tick (ticks n self).
Proof. reflexivity. Qed.

Lemma tick_fields (self : Scroller) :
  _text (tick self) = _text self ∧ _font (tick self) = _font self
  ∧ _width (tick self) = _width self ∧ _scrolling (tick self) = _scrolling self
  ∧ _max_h (tick self) = _max_h self.
Proof. unfold tick. repeat case_match; simpl; auto. Qed.

Lemma ticks_fields (n : nat) (self : Scroller) :
  _text (ticks n self) = _text self ∧ _font (ticks n self) = _font self
  ∧ _width (ticks n self) = _width self ∧ _scrolling (ticks n self) = _scrolling self
  ∧ _max_h (ticks n self) = _max_h self.
Proof.
  induction n as [|n IH]; [simpl; auto|].
  rewrite ticks_succ. destruct (tick_fields (ticks n self)) as (-> & -> & -> & -> & ->).
  exact IH.
Qed.

Lemma ticks_static (n : nat) (self : Scroller) :
  _scrolling self = false → ticks n self = self.
Proof.
  intros Hs. induction n as [|n IH]; [reflexivity|].
  rewrite ticks_succ, IH. unfold tick. now rewrite Hs.
Qed.

(** Before the loop closes, [k] ticks from offset 0 have advanced the line
    by [k] steps. *)
Lemma ticks_advance (k : nat) (self : Scroller) :
  _scrolling self = true → offset self = 0 →
  Z.of_nat k * SCROLL_SPEED < _width self + SCROLL_GAP →
  offset (ticks k self) = Z.of_nat k * SCROLL_SPEED.
Proof.
  intros Hs H0. induction k as [|k IH]; intros Hk; [simpl; lia|].
  rewrite ticks_succ. unfold tick.
  destruct (ticks_fields k self) as (_ & _ & Hw & Hscr & _).
  rewrite Hscr, Hs, Hw, IH by (unfold SCROLL_SPEED in *; lia).
  destruct (Z.leb_spec (_width self + SCROLL_GAP) (Z.of_nat k * SCROLL_SPEED + SCROLL_SPEED));
    simpl; unfold SCROLL_SPEED in *; lia.
Qed.

(** The tick that reaches the loop width wraps to 0. *)
Lemma ticks_wrap (self : Scroller) :
  _scrolling self = true → offset self = 0 → 0 < _width self + SCROLL_GAP →
  offset (ticks (Z.to_nat (ceil_div (_width self + SCROLL_GAP) SCROLL_SPEED)) self) = 0.
Proof.
  intros Hs H0 Hpos. unfold ceil_div, SCROLL_SPEED. rewrite Z.div_1_r.
  replace (_width self + SCROLL_GAP + 1 - 1) with (_width self + SCROLL_GAP) by lia.
  destruct (Z.to_nat (_width self + SCROLL_GAP)) as [|k] eqn:Ek; [lia|].
  rewrite ticks_succ. unfold tick.
  destruct (ticks_fields k self) as (_ & _ & Hw & Hscr & _).
  rewrite Hscr, Hs, Hw, ticks_advance by (unfold SCROLL_SPEED; lia || assumption).
  destruct (Z.leb_spec (_width self + SCROLL_GAP) (Z.of_nat k * SCROLL_SPEED + SCROLL_SPEED));
    simpl; unfold SCROLL_SPEED in *; lia.
Qed.
End ScrollerProps.

Section ScrollerClaims.
Context `{PIL}.

(** C2.  After any calls of [set], [reset] and [tick] on a fresh scroller:
    a line no wider than the display is static, at offset 0, and ticking
    leaves it as it is; a wider line is scrolling, its offset lies in
    [0, width + gap), a tick advances it by the scroll speed or wraps it to
    0 on reaching [width + gap], and from offset 0 the offset is back at 0
    after [ceil ((width + gap) / speed)] ticks and not before, which is 168
    ticks for a width of 140.  Whenever the measured width is not negative
    the offset lies in [0, width + gap), scrolling or not. *)
Theorem scroller_states (max_height : Z) (ops : list ScrollerOp) (n : nat) :
  let s := run_ops ops (Scroller_init max_height) in
  let period := ceil_div (_width s + SCROLL_GAP) SCROLL_SPEED in
  (_width s ≤ DISPLAY_W →
     _scrolling s = false ∧ offset s = 0 ∧ ticks n s = s)
  ∧ (DISPLAY_W < _width s →
     _scrolling s = true
     ∧ 0 ≤ offset s < _width s + SCROLL_GAP
     ∧ offset (tick s) = (if _width s + SCROLL_GAP <=? offset s + SCROLL_SPEED
                          then 0 else offset s + SCROLL_SPEED)
     ∧ offset (ticks (Z.to_nat period) (reset s)) = 0
     ∧ (∀ k : nat, (0 < k < Z.to_nat period)%nat → offset (ticks k (reset s)) ≠ 0)
     ∧ (_width s = 140 → period = 168))
  ∧ (0 ≤ _width s → 0 ≤ offset s < _width s + SCROLL_GAP).
Proof.
  intros s period.
  assert (Hok : scroller_ok s) by (apply scroller_ok_run, scroller_ok_init).
  destruct Hok as [Hs Ho]. split; [|split]; intros Hw;
    [| |destruct (_scrolling s); unfold SCROLL_GAP in *; lia].
  - assert (Escr : _scrolling s = false) by (rewrite Hs; apply Z.ltb_ge; lia).
    rewrite Escr in Ho. auto using ticks_static.
  - assert (Escr : _scrolling s = true) by (rewrite Hs; apply Z.ltb_lt; lia).
    rewrite Escr in Ho.
    assert (Eperiod : period = _width s + SCROLL_GAP).
    { unfold period, ceil_div, SCROLL_SPEED. rewrite Z.div_1_r. lia. }
    split; [exact Escr|]. split; [exact Ho|]. split; [|split; [|split]].
    + unfold tick. rewrite Escr. now destruct (_ <=? _).
    + apply (ticks_wrap (reset s)); [exact Escr|reflexivity|].
      simpl. unfold DISPLAY_W, SCROLL_GAP in *. lia.
    + intros k Hk. rewrite Eperiod in Hk.
      rewrite ticks_advance; [unfold SCROLL_SPEED; lia|exact Escr|reflexivity|].
      simpl. unfold SCROLL_SPEED. lia.
    + intros E. rewrite Eperiod, E. reflexivity.
Qed.

(** C4.  [set] with the text and font the scroller already has changes
    nothing, so repeating a call, also after any number of ticks, keeps the
    offset; with another text or font it stores them, measures the text
    anew, scrolls exactly when the new width exceeds the display width, and
    puts the offset back to 0. *)
Theorem set_idempotent (self : Scroller) (text : string) (f : option Font) (n : nat) :
  let f' := default font f in
  (text = _text self → f' = _font self → set self text f = self)
  ∧ (text ≠ _text self ∨ f' ≠ _font self →
     set self text f
     = {| offset := 0; _text := text; _font := f';
          _width := text_px_width text f';
          _scrolling := DISPLAY_W <? text_px_width text f';
          _max_h := _max_h self |}
     ∧ (_scrolling (set self text f) = true ↔ DISPLAY_W < text_px_width text f'))
  ∧ set (ticks n (set self text f)) text f = ticks n (set self text f).
Proof.
  intros f'. split; [|split].
  - intros Ht Hf. unfold set. fold f'.
    rewrite !bool_decide_eq_false_2 by auto. reflexivity.
  - intros Hdiff. unfold set. fold f'.
    assert (E : bool_decide (text ≠ _text self) || bool_decide (f' ≠ _font self) = true).
    { destruct Hdiff as [Ht|Hf].
      - now rewrite (bool_decide_eq_true_2 _ Ht).
      - rewrite (bool_decide_eq_true_2 _ Hf). apply orb_true_r. }
    rewrite E. split; [reflexivity|]. simpl. apply Z.ltb_lt.
  - assert (Et : _text (set self text f) = text ∧ _font (set self text f) = f').
    { unfold set. fold f'.
      destruct (bool_decide (text ≠ _text self)) eqn:Bt; simpl; [auto|].
      destruct (bool_decide (f' ≠ _font self)) eqn:Bf; simpl; [auto|].
      apply bool_decide_eq_false in Bt, Bf.
      split; [destruct (decide (text = _text self)) | destruct (decide (f' = _font self))];
        first [congruence | contradiction]. }
    destruct Et as [Et Ef].
    destruct (ticks_fields n (set self text f)) as (Ht' & Hf' & _).
    unfold set at 1. fold f'. rewrite Ht', Hf', Et, Ef.
    rewrite !bool_decide_eq_false_2 by auto. reflexivity.
Qed.
End ScrollerClaims.

Lemma scroller_states_witness :
  let wide := run_ops [OpSet Sample.wide_text None; OpTick; OpTick; OpTick]
                      (Scroller_init (H := Sample.fixed_pitch) LINE_HEIGHT) in
  let narrow := run_ops [OpSet "IP:10.0.0.7" (Some font_bold); OpTick; OpReset]
                        (Scroller_init (H := Sample.fixed_pitch) LINE_HEIGHT) in
  (DISPLAY_W < _width wide
   ∧ _width wide = 140
   ∧ _scrolling wide = true
   ∧ offset (ticks 168 (reset wide)) = 0
   ∧ offset (ticks 167 (reset wide)) ≠ 0)
  ∧ (_width narrow ≤ DISPLAY_W
     ∧ _scrolling narrow = false
     ∧ ticks 9 narrow = narrow).
Proof.
  intros wide narrow.
  assert (Hwide : DISPLAY_W < _width wide) by (vm_compute; reflexivity).
  assert (Hnarrow : _width narrow ≤ DISPLAY_W) by (vm_compute; discriminate).
  destruct (scroller_states (H := Sample.fixed_pitch) LINE_HEIGHT
              [OpSet Sample.wide_text None; OpTick; OpTick; OpTick] 0)
    as (_ & Hscroll & _).
  destruct (Hscroll Hwide) as (Hs & _ & _ & Hback & Hnot & Hperiod).
  destruct (scroller_states (H := Sample.fixed_pitch) LINE_HEIGHT
              [OpSet "IP:10.0.0.7" (Some font_bold); OpTick; OpReset] 9)
    as (Hstatic & _ & _).
  destruct (Hstatic Hnarrow) as (Hs' & _ & Hfix).
  split.
  - split; [exact Hwide|]. split; [reflexivity|]. split; [exact Hs|].
    split; [exact Hback|]. apply (Hnot 167%nat). vm_compute. split; lia.
  - split; [exact Hnarrow|]. split; [exact Hs' | exact Hfix].
Defined.

Lemma set_idempotent_witness :
  let s := ticks 3 (set (Scroller_init (H := Sample.fixed_pitch) LINE_HEIGHT)
                        Sample.wide_text None) in
  (offset s = 3 ∧ offset (set s Sample.wide_text None) = 3)
  ∧ (offset (set s "IP:No IP" None) = 0
     ∧ _scrolling (set s "IP:No IP" None) = false
     ∧ _width (set s "IP:No IP" None) = 80).
Proof.
  intros s.
  destruct (set_idempotent (H := Sample.fixed_pitch) s Sample.wide_text None 0)
    as (Hsame & _ & _).
  destruct (set_idempotent (H := Sample.fixed_pitch) s "IP:No IP" None 0)
    as (_ & Hother & _).
  split.
  - split; [reflexivity|]. rewrite (Hsame eq_refl eq_refl). reflexivity.
  - destruct Hother as [-> _]; [left; discriminate|]. repeat split.
Defined.

(** ** Rendering a line *)

Section Rendering.
Context `{PIL}.

Lemma inside_spec (im : Image) (x y : Z) :
  inside im x y = true ↔ 0 ≤ x < im_w im ∧ 0 ≤ y < im_h im.
Proof. unfold inside. rewrite !andb_true_iff, !Z.leb_le, !Z.ltb_lt. lia. Qed.

Lemma in_box_spec (x0 y0 x1 y1 x y : Z) :
  in_box (x0, y0, x1, y1) x y = true ↔ x0 ≤ x < x1 ∧ y0 ≤ y < y1.
Proof. unfold in_box. rewrite !andb_true_iff, !Z.leb_le, !Z.ltb_lt. lia. Qed.

Lemma line_band_size (self : Scroller) :
  im_w (line_band self) = DISPLAY_W ∧ im_h (line_band self) = _max_h self.
Proof.
  unfold line_band. destruct (_scrolling self); simpl; split; lia.
Qed.

(** Drawing a line leaves every row outside its band as it was. *)
Lemma draw_onto_lane (self : Scroller) (image : Image) (y x r : Z) :
  ¬ (y ≤ r < y + _max_h self) →
  im_px (draw_onto self image y) x r = im_px image x r.
Proof.
  intros Hout. unfold draw_onto, paste. cbn [im_px].
  destruct (line_band_size self) as [-> ->].
  destruct (in_box (0, y, 0 + DISPLAY_W, y + _max_h self) x r) eqn:Ebox.
  - apply in_box_spec in Ebox. lia.
  - now rewrite andb_false_r.
Qed.

Lemma draw_onto_size (self : Scroller) (image : Image) (y : Z) :
  im_w (draw_onto self image y) = im_w image ∧ im_h (draw_onto self image y) = im_h image.
Proof. split; reflexivity. Qed.

Lemma scroll_band_pixel (self : Scroller) (c r : Z) :
  getpixel (scroll_band self) c r
  = inside (scroll_band self) c r
    && (text_mask (_font self) (_text self) c r
        || text_mask (_font self) (_text self) (c - (_width self + SCROLL_GAP)) r).
Proof.
  unfold getpixel, scroll_band, draw_text, Image_new, inside. cbn [im_px im_w im_h].
  rewrite !Z.sub_0_r.
  match goal with |- ?b && _ = ?b && _ => destruct b end; [|reflexivity].
  cbn [andb].
  destruct (text_mask _ _ (c - _) r); [now rewrite orb_true_r|].
  rewrite orb_false_r. now destruct (text_mask _ _ c r).
Qed.

Lemma scroll_tile_pixel (self : Scroller) (c r : Z) :
  getpixel (scroll_tile self) c r
  = inside (scroll_tile self) c r && text_mask (_font self) (_text self) c r.
Proof.
  unfold getpixel, scroll_tile, draw_text, Image_new, inside. cbn [im_px im_w im_h].
  rewrite !Z.sub_0_r.
  match goal with |- ?b && _ = ?b && _ => destruct b end; [|reflexivity].
  cbn [andb]. now destruct (text_mask _ _ c r).
Qed.

Lemma not_inked (self : Scroller) (dx dy : Z) :
  (∀ dx dy, text_mask (_font self) (_text self) dx dy = true
            → 0 ≤ dx < _width self + SCROLL_GAP) →
  ¬ (0 ≤ dx < _width self + SCROLL_GAP) →
  text_mask (_font self) (_text self) dx dy = false.
Proof.
  intros Hink Hout. destruct (text_mask _ _ dx dy) eqn:E; [|reflexivity].
  apply Hink in E. contradiction.
Qed.

(** The cropped window of a scrolling line shows the tile, periodically. *)
Lemma line_band_periodic (self : Scroller) (x r : Z) :
  _scrolling self = true →
  0 ≤ offset self < _width self + SCROLL_GAP →
  DISPLAY_W < _width self →
  (∀ dx dy, text_mask (_font self) (_text self) dx dy = true
            → 0 ≤ dx < _width self + SCROLL_GAP) →
  0 ≤ x < DISPLAY_W →
  getpixel (line_band self) x r
  = getpixel (scroll_tile self) ((offset self + x) mod (_width self + SCROLL_GAP)) r.
Proof.
  intros Hs Ho Hw Hink Hx.
  set (W := _width self + SCROLL_GAP) in *.
  assert (HW : DISPLAY_W < W) by (unfold W, SCROLL_GAP; lia).
  pose proof (Z.mod_pos_bound (offset self + x) W ltac:(unfold DISPLAY_W in *; lia)) as Hm.
  rewrite scroll_tile_pixel.
  unfold line_band. rewrite Hs. cbn [negb].
  unfold getpixel at 1, crop. cbn [im_px im_w im_h].
  rewrite scroll_band_pixel. fold W. rewrite Z.add_0_l.
  destruct (decide (0 ≤ r < _max_h self)) as [Hr|Hr].
  - assert (E1 : inside {| im_w := offset self + DISPLAY_W - offset self;
                           im_h := _max_h self - 0;
                           im_px := λ x0 y0, getpixel (scroll_band self) (offset self + x0) (0 + y0) |}
                        x r = true).
    { apply inside_spec. simpl. lia. }
    assert (E2 : inside (scroll_band self) (offset self + x) r = true).
    { apply inside_spec. simpl. fold W. lia. }
    assert (E3 : inside (scroll_tile self) ((offset self + x) mod W) r = true).
    { apply inside_spec. simpl. fold W. lia. }
    unfold crop in E1. rewrite E1, E2, E3. simpl.
    destruct (decide (offset self + x < W)) as [Hlt|Hge].
    + rewrite Z.mod_small by lia.
      rewrite (not_inked self (offset self + x - W) r Hink) by (fold W; lia).
      now rewrite orb_false_r.
    + replace ((offset self + x) mod W) with (offset self + x - W).
      * rewrite (not_inked self (offset self + x) r Hink) by (fold W; lia).
        reflexivity.
      * symmetry. rewrite <- (Z.mod_small (offset self + x - W) W) by lia.
        replace (offset self + x) with (offset self + x - W + 1 * W) at 1 by lia.
        apply Z.mod_add. lia.
  - assert (E1 : inside {| im_w := offset self + DISPLAY_W - offset self;
                           im_h := _max_h self - 0;
                           im_px := λ x0 y0, getpixel (scroll_band self) (offset self + x0) (0 + y0) |}
                        x r = false).
    { apply not_true_is_false. rewrite inside_spec. simpl. lia. }
    assert (E3 : inside (scroll_tile self) ((offset self + x) mod W) r = false).
    { apply not_true_is_false. rewrite inside_spec. simpl. lia. }
    unfold crop in E1. now rewrite E1, E3.
Qed.
End Rendering.

Section Frames.
Context `{PIL}.

Lemma draw_ellipse_rows (im : Image) (x0 y0 x1 y1 : Z) (fill : bool) (x r : Z) :
  ¬ (y0 ≤ r ≤ y1) →
  im_px (draw_ellipse im (x0, y0, x1, y1) fill) x r = im_px im x r.
Proof.
  intros Hout. unfold draw_ellipse. cbn [im_px].
  destruct (in_box (x0, y0, x1 + 1, y1 + 1) x r) eqn:Ebox.
  - apply in_box_spec in Ebox. lia.
  - now rewrite andb_false_r.
Qed.

Lemma draw_hline_lit (im : Image) (x0 x1 y x : Z) :
  inside im x y = true → x0 ≤ x ≤ x1 →
  im_px (draw_hline im x0 x1 y) x y = true.
Proof.
  intros Hin Hx. unfold draw_hline. cbn [im_px].
  rewrite Hin, Z.eqb_refl.
  destruct (Z.leb_spec x0 x); [|lia]. destruct (Z.leb_spec x x1); [|lia].
  reflexivity.
Qed.

(** Whatever the four lines draw, the divider row of a frame is lit. *)
Lemma render_divider (page : Z) (l : Loop) (x : Z) :
  0 ≤ x < DISPLAY_W → getpixel (render page l) x Y_DIVIDER = true.
Proof.
  intros Hx. change DISPLAY_W with 128 in Hx.
  unfold getpixel. apply andb_true_iff. split.
  - apply inside_spec.
    change (im_w (render page l)) with 128. change (im_h (render page l)) with 64.
    change Y_DIVIDER with 30. lia.
  - unfold render.
    rewrite !draw_ellipse_rows by (vm_compute; intros [? ?]; auto).
    apply draw_hline_lit; [|change DISPLAY_W with 128; lia].
    apply inside_spec.
    change Y_DIVIDER with 30. cbn [im_w im_h draw_onto paste Image_new].
    change DISPLAY_W with 128. change DISPLAY_H with 64. lia.
Qed.

Lemma main_loop_cons (m : Moment) (ms : list Moment) (l : Loop) :
  main_loop (m :: ms) l
  = (fst (main_round m l) :: fst (main_loop ms (snd (main_round m l))),
     snd (main_loop ms (snd (main_round m l)))).
Proof.
  simpl. destruct (main_loop ms _) as [frames l'']. reflexivity.
Qed.

Lemma main_loop_frames (P : Image → Prop) (ms : list Moment) (l : Loop) :
  (∀ page l', P (render page l')) → Forall P (fst (main_loop ms l)).
Proof.
  intros HP. revert l. induction ms as [|m ms IH]; intros l; [constructor|].
  rewrite main_loop_cons. constructor; [apply HP | apply IH].
Qed.

Lemma set_max_h (self : Scroller) (text : string) (f : option Font) :
  _max_h (set self text f) = _max_h self.
Proof. unfold set. now destruct (_ || _). Qed.

Lemma main_round_heights (m : Moment) (l : Loop) :
  _max_h (s1 l) = LINE_HEIGHT ∧ _max_h (s2 l) = LINE_HEIGHT
  ∧ _max_h (s3 l) = LINE_HEIGHT ∧ _max_h (s4 l) = LINE_HEIGHT →
  let l' := snd (main_round m l) in
  _max_h (s1 l') = LINE_HEIGHT ∧ _max_h (s2 l') = LINE_HEIGHT
  ∧ _max_h (s3 l') = LINE_HEIGHT ∧ _max_h (s4 l') = LINE_HEIGHT.
Proof.
  intros (H1 & H2 & H3 & H4). unfold main_round, prepare, page_sync. cbn [snd].
  case_bool_decide; unfold advance, compose; cbn [s1 s2 s3 s4];
    destruct (page_index (now m) =? 0);
    repeat split;
    repeat match goal with
           | |- context [_max_h (tick ?s)] =>
               rewrite (proj2 (proj2 (proj2 (proj2 (tick_fields s)))))
           end;
    rewrite ?set_max_h; assumption.
Qed.

Lemma main_loop_heights (ms : list Moment) (l : Loop) :
  _max_h (s1 l) = LINE_HEIGHT ∧ _max_h (s2 l) = LINE_HEIGHT
  ∧ _max_h (s3 l) = LINE_HEIGHT ∧ _max_h (s4 l) = LINE_HEIGHT →
  let l' := snd (main_loop ms l) in
  _max_h (s1 l') = LINE_HEIGHT ∧ _max_h (s2 l') = LINE_HEIGHT
  ∧ _max_h (s3 l') = LINE_HEIGHT ∧ _max_h (s4 l') = LINE_HEIGHT.
Proof.
  revert l. induction ms as [|m ms IH]; intros l Hl; [exact Hl|].
  rewrite main_loop_cons. cbn [snd]. apply IH. now apply main_round_heights.
Qed.
End Frames.

Section RenderingClaims.
Context `{PIL}.

(** C3, as the program has it.  For a scroller in Scrolling state after any
    calls: the band is [2 * (width + gap)] wide and holds the text at 0 and
    at [width + gap]; the line is the crop of that band at the current
    offset, a window that lies inside the band, so column [x] of the line,
    alone and as pasted into a frame, is column [offset + x] of the band.
    Where the text inks no column left of the drawing position and none at
    or beyond [width + gap], that column is column
    [(offset + x) mod (width + gap)] of a single tile. *)
Theorem scrolling_band_periodic (max_height : Z) (ops : list ScrollerOp)
    (image : Image) (y : Z) :
  let s := run_ops ops (Scroller_init max_height) in
  let loop_w := _width s + SCROLL_GAP in
  _scrolling s = true →
  im_w (scroll_band s) = 2 * loop_w
  ∧ im_h (scroll_band s) = _max_h s
  ∧ (∀ c r, getpixel (scroll_band s) c r
            = inside (scroll_band s) c r
              && (text_mask (_font s) (_text s) c r
                  || text_mask (_font s) (_text s) (c - loop_w) r))
  ∧ line_band s = crop (scroll_band s) (offset s, 0, offset s + DISPLAY_W, _max_h s)
  ∧ 0 ≤ offset s < loop_w
  ∧ offset s + DISPLAY_W ≤ 2 * loop_w
  ∧ (∀ x r, 0 ≤ x < DISPLAY_W →
       getpixel (line_band s) x r = getpixel (scroll_band s) (offset s + x) r)
  ∧ (∀ x r, 0 ≤ x < DISPLAY_W → 0 ≤ r < _max_h s → inside image x (y + r) = true →
       getpixel (draw_onto s image y) x (y + r) = getpixel (line_band s) x r)
  ∧ ((∀ dx dy, text_mask (_font s) (_text s) dx dy = true → 0 ≤ dx < loop_w) →
     (∀ x r, 0 ≤ x < DISPLAY_W →
        getpixel (line_band s) x r
        = getpixel (scroll_tile s) ((offset s + x) mod loop_w) r)
     ∧ (∀ x r, 0 ≤ x < DISPLAY_W → 0 ≤ r < _max_h s → inside image x (y + r) = true →
          getpixel (draw_onto s image y) x (y + r)
          = getpixel (scroll_tile s) ((offset s + x) mod loop_w) r)).
Proof.
  intros s loop_w Hs.
  assert (Hok : scroller_ok s) by (apply scroller_ok_run, scroller_ok_init).
  destruct Hok as [Hscr Ho]. rewrite Hs in Ho.
  assert (Hw : DISPLAY_W < _width s) by (apply Z.ltb_lt; congruence).
  assert (Hline : line_band s
                  = crop (scroll_band s) (offset s, 0, offset s + DISPLAY_W, _max_h s))
    by (unfold line_band; now rewrite Hs).
  assert (Hcrop : ∀ x r, 0 ≤ x < DISPLAY_W →
            getpixel (line_band s) x r = getpixel (scroll_band s) (offset s + x) r).
  { intros x r Hx. rewrite Hline. unfold getpixel at 1, crop. cbn [im_px].
    rewrite Z.add_0_l.
    match goal with |- ?b && _ = _ => destruct b eqn:Ein end; [reflexivity|].
    symmetry. unfold getpixel.
    destruct (inside (scroll_band s) (offset s + x) r) eqn:Eband; [|reflexivity].
    apply inside_spec in Eband. cbn [im_w im_h scroll_band draw_text Image_new] in Eband.
    apply not_true_iff_false in Ein. exfalso. apply Ein.
    apply inside_spec. cbn [im_w im_h]. lia. }
  assert (Hpaste : ∀ x r, 0 ≤ x < DISPLAY_W → 0 ≤ r < _max_h s →
            inside image x (y + r) = true →
            getpixel (draw_onto s image y) x (y + r) = getpixel (line_band s) x r).
  { intros x r Hx Hr Hin.
    unfold getpixel at 1. unfold draw_onto, paste. cbn [im_px].
    change (inside {| im_w := im_w image; im_h := im_h image; im_px := _ |} x (y + r))
      with (inside image x (y + r)).
    rewrite Hin. cbn [andb].
    destruct (line_band_size s) as [-> ->].
    assert (Ebox : in_box (0, y, 0 + DISPLAY_W, y + _max_h s) x (y + r) = true)
      by (apply in_box_spec; lia).
    rewrite Ebox. f_equal; lia. }
  split; [simpl; fold loop_w; lia|]. split; [reflexivity|].
  split; [apply scroll_band_pixel|].
  split; [exact Hline|].
  split; [exact Ho|].
  split; [unfold loop_w, DISPLAY_W, SCROLL_GAP in *; lia|].
  split; [exact Hcrop|]. split; [exact Hpaste|].
  intros Hink.
  assert (Hper : ∀ x r, 0 ≤ x < DISPLAY_W →
            getpixel (line_band s) x r
            = getpixel (scroll_tile s) ((offset s + x) mod loop_w) r)
    by (intros x r Hx; now apply line_band_periodic).
  split; [exact Hper|].
  intros x r Hx Hr Hin. rewrite <- Hper by exact Hx. now apply Hpaste.
Qed.

(** C8.  Drawing a line changes no pixel of a row outside its band
    [y, y + max_h), whatever the font inks, and the four scrollers of the
    main loop always have bands [LINE_HEIGHT] high, none of which contains
    the divider row 30; the divider drawn after them, and the page dots
    below it, leave that row lit across the display in every frame
    displayed. *)
Theorem divider_always_lit (ms : list Moment) (l : Loop) (self : Scroller)
    (image : Image) (y x r : Z) :
  (¬ (y ≤ r < y + _max_h self) →
     getpixel (draw_onto self image y) x r = getpixel image x r)
  ∧ (let l' := snd (main_loop ms main_init) in
     _max_h (s1 l') = LINE_HEIGHT ∧ _max_h (s2 l') = LINE_HEIGHT
     ∧ _max_h (s3 l') = LINE_HEIGHT ∧ _max_h (s4 l') = LINE_HEIGHT)
  ∧ Y_DIVIDER = 30
  ∧ Forall (λ top, ¬ (top ≤ Y_DIVIDER < top + LINE_HEIGHT))
           [Y_LINE1; Y_LINE2; Y_LINE3; Y_LINE4]
  ∧ Forall (λ frame, ∀ c, 0 ≤ c < DISPLAY_W → getpixel frame c Y_DIVIDER = true)
           (fst (main_loop ms l)).
Proof.
  split; [|split; [|split; [|split]]].
  - intros Hout. unfold getpixel.
    rewrite draw_onto_lane by exact Hout. reflexivity.
  - apply main_loop_heights. repeat split.
  - reflexivity.
  - repeat constructor; vm_compute; intros [? ?]; auto.
  - apply main_loop_frames. intros page l' c Hc. now apply render_divider.
Qed.
End RenderingClaims.

Lemma sample_ink (f : Sample.Face) (text : string) (dx dy : Z) :
  text_mask (PIL := Sample.fixed_pitch) f text dx dy = true →
  0 ≤ dx < Sample.advance_px f * Z.of_nat (String.length text).
Proof.
  cbn [text_mask Sample.fixed_pitch]. rewrite !andb_true_iff, Z.leb_le, Z.ltb_lt.
  tauto.
Qed.

Lemma scrolling_band_periodic_witness :
  let s := run_ops (OpSet Sample.wide_text None :: repeat OpTick 150)
                   (Scroller_init (H := Sample.fixed_pitch) LINE_HEIGHT) in
  let loop_w := _width s + SCROLL_GAP in
  _scrolling s = true
  ∧ (offset s = 150 ∧ loop_w = 168 ∧ (offset s + 30) mod loop_w = 12)
  ∧ offset s + DISPLAY_W ≤ 2 * loop_w
  ∧ getpixel (line_band s) 30 2 = getpixel (scroll_band s) (offset s + 30) 2
  ∧ getpixel (line_band s) 30 2
    = getpixel (scroll_tile s) ((offset s + 30) mod loop_w) 2
  ∧ getpixel (draw_onto s (Image_new DISPLAY_W DISPLAY_H) Y_LINE3) 30 (Y_LINE3 + 2)
    = getpixel (scroll_tile s) ((offset s + 30) mod loop_w) 2.
Proof.
  intros s loop_w.
  assert (Hs : _scrolling s = true) by (vm_compute; reflexivity).
  assert (Hpx : Sample.advance_px (_font s) * Z.of_nat (String.length (_text s)) = 140)
    by (vm_compute; reflexivity).
  assert (Hloop : loop_w = 168) by (vm_compute; reflexivity).
  assert (Hink : ∀ dx dy, text_mask (_font s) (_text s) dx dy = true
                          → 0 ≤ dx < _width s + SCROLL_GAP).
  { intros dx dy Hm. apply sample_ink in Hm. rewrite Hpx in Hm.
    fold loop_w. rewrite Hloop. lia. }
  destruct (scrolling_band_periodic (H := Sample.fixed_pitch) LINE_HEIGHT
              (OpSet Sample.wide_text None :: repeat OpTick 150)
              (Image_new DISPLAY_W DISPLAY_H) Y_LINE3 Hs)
    as (_ & _ & _ & _ & _ & Hwin & Hcrop & _ & Hperiodic).
  destruct (Hperiodic Hink) as [Hper Hframe].
  split; [exact Hs|].
  split; [split; [|split]; vm_compute; reflexivity|].
  split; [exact Hwin|]. split; [|split].
  - apply (Hcrop 30 2). vm_compute. split; [discriminate | reflexivity].
  - apply (Hper 30 2). vm_compute. split; [discriminate | reflexivity].
  - apply (Hframe 30 2).
    + vm_compute. split; [discriminate | reflexivity].
    + vm_compute. split; [discriminate | reflexivity].
    + vm_compute. reflexivity.
Defined.

(** C3, as stated, fails: with a font whose ink starts one column left of
    the drawing position, the second copy of the text reaches into the gap
    of the first; at offset 40 the last column of the line is lit where the
    tile is dark. *)
Lemma left_bearing_breaks_period :
  let s := run_ops (OpSet "pi-node-1  4GB" None :: repeat OpTick 40)
                   (Scroller_init (H := Overhang.left_bearing) LINE_HEIGHT) in
  let loop_w := _width s + SCROLL_GAP in
  _scrolling s = true
  ∧ offset s = 40
  ∧ loop_w = 168
  ∧ getpixel (line_band s) 127 3 = true
  ∧ getpixel (scroll_tile s) ((offset s + 127) mod loop_w) 3 = false
  ∧ getpixel (line_band s) 127 3
    ≠ getpixel (scroll_tile s) ((offset s + 127) mod loop_w) 3.
Proof.
  intros s loop_w.
  assert (Hlit : getpixel (line_band s) 127 3 = true) by (vm_compute; reflexivity).
  assert (Hdark : getpixel (scroll_tile s) ((offset s + 127) mod loop_w) 3 = false)
    by (vm_compute; reflexivity).
  split; [vm_compute; reflexivity|]. split; [vm_compute; reflexivity|].
  split; [vm_compute; reflexivity|]. split; [exact Hlit|]. split; [exact Hdark|].
  rewrite Hlit, Hdark. discriminate.
Qed.

Lemma divider_always_lit_witness :
  let m := {| now := 51 # 10; store := Sample.store0; sys_now := Sample.healthy |} in
  let self := set (Scroller_init (H := Sample.fixed_pitch) LINE_HEIGHT)
                  "pi-node-1  4GB" None in
  let image := draw_hline (Image_new DISPLAY_W DISPLAY_H)
                          0 DISPLAY_W Y_DIVIDER in
  ¬ (Y_LINE2 ≤ 30 < Y_LINE2 + _max_h self)
  ∧ text_mask (_font self) (_text self) 5 (30 - Y_LINE2) = true
  ∧ getpixel (draw_onto self image Y_LINE2) 5 30 = getpixel image 5 30
  ∧ getpixel (fst (main_round m main_init)) 127 Y_DIVIDER = true.
Proof.
  intros m self image.
  assert (Hout : ¬ (Y_LINE2 ≤ 30 < Y_LINE2 + _max_h self))
    by (vm_compute; intros [_ E]; discriminate E).
  destruct (divider_always_lit (H := Sample.fixed_pitch) [m] main_init self image
              Y_LINE2 5 30) as (Hlane & _ & _ & _ & Hframes).
  rewrite main_loop_cons in Hframes. apply Forall_inv in Hframes.
  split; [exact Hout|]. split; [vm_compute; reflexivity|].
  split; [exact (Hlane Hout)|].
  apply (Hframes 127). vm_compute. split; [discriminate | reflexivity].
Defined.

(** ** Page transitions *)

Section MainClaims.
Context `{PIL}.

Lemma set_keeps_zero (self : Scroller) (text : string) (f : option Font) :
  offset self = 0 → offset (set self text f) = 0.
Proof. intros H0. unfold set. now destruct (_ || _). Qed.

Lemma set_same_offset (self : Scroller) (text : string) (f : Font) :
  text = _text self → f = _font self →
  offset (set self text (Some f)) = offset self.
Proof.
  intros Ht Hf. unfold set. cbn [default].
  now rewrite !bool_decide_eq_false_2 by auto.
Qed.

(** C5.  The state a round leaves behind records the page of that round.
    In a round whose page differs from the recorded one, the frame is drawn
    with the scrollers of lines 3 and 4 at offset 0.  The scrollers of lines
    1 and 2 only ever receive [set] before the frame is drawn, whatever the
    page: they keep their offset as long as their text is unchanged. *)
Theorem page_flip_resets (before m : Moment) (l0 : Loop) :
  let l := snd (main_round before l0) in
  let page := page_index (now m) in
  let drawn := prepare m l in
  let line1 := "IP:" +:+ get (store m) "ip" in
  let line2 := get (store m) "hostname" +:+ "  " +:+ get (store m) "ram" in
  last_page l = page_index (now before)
  ∧ fst (main_round m l) = render page drawn
  ∧ (page ≠ page_index (now before) →
       offset (s3 drawn) = 0 ∧ offset (s4 drawn) = 0)
  ∧ s1 drawn = set (s1 l) line1 (Some font_bold)
  ∧ s2 drawn = set (s2 l) line2 (Some font)
  ∧ (line1 = _text (s1 l) → font_bold = _font (s1 l) →
       offset (s1 drawn) = offset (s1 l))
  ∧ (line2 = _text (s2 l) → font = _font (s2 l) →
       offset (s2 drawn) = offset (s2 l)).
Proof.
  intros l page drawn line1 line2.
  assert (Hlast : last_page l = page_index (now before))
    by apply main_round_last_page.
  assert (E1 : s1 drawn = set (s1 l) line1 (Some font_bold)).
  { unfold drawn, prepare, page_sync. now case_bool_decide. }
  assert (E2 : s2 drawn = set (s2 l) line2 (Some font)).
  { unfold drawn, prepare, page_sync. now case_bool_decide. }
  split; [exact Hlast|]. split; [reflexivity|]. split; [|split; [|split; [|split]]].
  - intros Hflip. unfold drawn, prepare. fold page.
    unfold page_sync. rewrite Hlast.
    rewrite bool_decide_eq_true_2 by exact Hflip.
    unfold compose. cbn [s3 s4].
    destruct (page =? 0); split; now apply set_keeps_zero.
  - exact E1.
  - exact E2.
  - intros Ht Hf. rewrite E1. now apply set_same_offset.
  - intros Ht Hf. rewrite E2. now apply set_same_offset.
Qed.
End MainClaims.

Lemma page_flip_resets_witness :
  let before := {| now := 49 # 10; store := Sample.store0; sys_now := Sample.healthy |} in
  let m := {| now := 51 # 10; store := Sample.store0; sys_now := Sample.healthy |} in
  let l := snd (main_round (H := Sample.fixed_pitch) before main_init) in
  let drawn := prepare m l in
  page_index (now m) ≠ page_index (now before)
  ∧ (offset (s3 l) = 1 ∧ offset (s4 l) = 1)
  ∧ (offset (s3 drawn) = 0 ∧ offset (s4 drawn) = 0)
  ∧ (offset (s1 l) = 1 ∧ offset (s1 drawn) = offset (s1 l))
  ∧ (offset (s2 l) = 1 ∧ offset (s2 drawn) = offset (s2 l)).
Proof.
  intros before m l drawn.
  assert (Hflip : page_index (now m) ≠ page_index (now before))
    by (vm_compute; discriminate).
  destruct (page_flip_resets (H := Sample.fixed_pitch) before m main_init)
    as (_ & _ & Hreset & _ & _ & Hkeep1 & Hkeep2).
  split; [exact Hflip|].
  split; [split; vm_compute; reflexivity|].
  split; [exact (Hreset Hflip)|].
  split; (split; [vm_compute; reflexivity|]).
  - apply Hkeep1; vm_compute; reflexivity.
  - apply Hkeep2; vm_compute; reflexivity.
Defined.

(** ** The data store *)

Lemma bind_ok {A B : Type} (m : Exc A) (f : A → Exc B) (b : B) :
  m ≫= f = Ok b → ∃ a, m = Ok a ∧ f a = Ok b.
Proof. destruct m as [a|e]; [eauto | discriminate]. Qed.

Lemma collect_ok (sys : System) (new : gmap string string) :
  collect sys = Ok new →
  ∃ ip hostname ram cpu network disk,
    get_ip sys = Ok ip ∧ get_hostname sys = Ok hostname
    ∧ get_ram_label sys = Ok ram ∧ get_cpu sys = Ok cpu
    ∧ get_network sys = Ok network ∧ get_disk sys = Ok disk
    ∧ new = <["ip" := ip]> (<["hostname" := hostname]> (<["ram" := ram]>
              (<["cpu" := cpu]> (<["network" := network]> (<["disk" := disk]> ∅))))).
Proof.
  unfold collect. intros Hc.
  apply bind_ok in Hc as (ip & Hip & Hc).
  apply bind_ok in Hc as (hostname & Hhost & Hc).
  apply bind_ok in Hc as (ram & Hram & Hc).
  apply bind_ok in Hc as (cpu & Hcpu & Hc).
  apply bind_ok in Hc as (network & Hnet & Hc).
  apply bind_ok in Hc as (disk & Hdisk & Hc).
  injection Hc as <-.
  exists ip, hostname, ram, cpu, network, disk.
  repeat (split; [assumption|]). reflexivity.
Qed.

Lemma collect_keys (sys : System) (new : gmap string string) (k : string) :
  collect sys = Ok new → k ∈ metric_keys → is_Some (new !! k).
Proof.
  intros Hc Hk. apply collect_ok in Hc as (? & ? & ? & ? & ? & ? & _ & _ & _ & _ & _ & _ & ->).
  unfold metric_keys in Hk. set_unfold.
  destruct Hk as [->|[->|[->|[->|[->|[->|[]]]]]]]; simplify_map_eq; eauto.
Qed.

Lemma refresh_ok (sys : System) (self self' : DataStore) :
  refresh sys self = Ok self' →
  ∃ new, collect sys = Ok new ∧ _data self' = new ∪ _data self.
Proof.
  unfold refresh. intros Hr. apply bind_ok in Hr as (new & Hnew & Hr).
  injection Hr as <-. eauto.
Qed.

Lemma refresh_keys (sys : System) (self self' : DataStore) (k : string) :
  refresh sys self = Ok self' → k ∈ metric_keys → is_Some (_data self' !! k).
Proof.
  intros Hr Hk. apply refresh_ok in Hr as (new & Hnew & ->).
  destruct (collect_keys sys new k Hnew Hk) as [v Hv].
  exists v. now apply lookup_union_Some_l.
Qed.

Lemma background_refresh_step_keys (sys : System) (st : DataStore * list string) :
  (∀ k, k ∈ metric_keys → is_Some (_data (fst st) !! k)) →
  ∀ k, k ∈ metric_keys → is_Some (_data (fst (background_refresh_step sys st)) !! k).
Proof.
  intros Hst k Hk. unfold background_refresh_step.
  destruct (refresh sys (fst st)) as [store'|e] eqn:Hr; cbn [fst].
  - eapply refresh_keys; eassumption.
  - now apply Hst.
Qed.

Lemma background_refresh_keys (rounds : list System) (st : DataStore * list string) :
  (∀ k, k ∈ metric_keys → is_Some (_data (fst st) !! k)) →
  ∀ k, k ∈ metric_keys → is_Some (_data (fst (background_refresh rounds st)) !! k).
Proof.
  revert st. induction rounds as [|sys rounds IH]; intros st Hst; [exact Hst|].
  apply (IH (background_refresh_step sys st)).
  now apply background_refresh_step_keys.
Qed.

(** C6.  Once the store has been constructed, which runs one refresh, each
    of the six keys has a string value, after any number of rounds of the
    background refresh and after any further successful [refresh]; [get]
    returns the stored string of a key that is present and the empty string
    for a key that is absent. *)
Theorem store_always_complete (sys0 sys : System) (rounds : list System)
    (log : list string) (d0 : DataStore) (key : string) :
  DataStore_init sys0 = Ok d0 →
  let d := fst (background_refresh rounds (d0, log)) in
  DataStore_init sys0 = refresh sys0 {| _data := ∅ |}
  ∧ (∀ k, k ∈ metric_keys → ∃ v, _data d0 !! k = Some v ∧ get d0 k = v)
  ∧ (∀ k, k ∈ metric_keys → ∃ v, _data d !! k = Some v ∧ get d k = v)
  ∧ (∀ d', refresh sys d = Ok d' →
       ∀ k, k ∈ metric_keys → ∃ v, _data d' !! k = Some v ∧ get d' k = v)
  ∧ (∀ v, _data d !! key = Some v → get d key = v)
  ∧ (_data d !! key = None → get d key = "").
Proof.
  intros Hinit d.
  assert (H0 : ∀ k, k ∈ metric_keys → is_Some (_data d0 !! k))
    by (intros k Hk; eapply refresh_keys; eassumption).
  assert (Hget : ∀ (s : DataStore) k, is_Some (_data s !! k)
                 → ∃ v, _data s !! k = Some v ∧ get s k = v).
  { intros s k [v Hv]. exists v. split; [exact Hv|]. unfold get. now rewrite Hv. }
  split; [reflexivity|]. split; [auto|]. split; [|split; [|split]].
  - intros k Hk. apply Hget. now apply (background_refresh_keys rounds (d0, log)).
  - intros d' Hr k Hk. apply Hget. eapply refresh_keys; eassumption.
  - intros v Hv. unfold get. now rewrite Hv.
  - intros Hnone. unfold get. now rewrite Hnone.
Qed.

Lemma store_always_complete_witness :
  let d := fst (background_refresh [Sample.disk_down; Sample.offline]
                                   (Sample.store0, [])) in
  DataStore_init Sample.healthy = Ok Sample.store0
  ∧ (∃ v, _data d !! "disk" = Some v ∧ get d "disk" = v)
  ∧ (∃ v, _data Sample.store0 !! "cpu" = Some v ∧ get Sample.store0 "cpu" = v)
  ∧ get d "uptime" = "".
Proof.
  intros d.
  assert (Hinit : DataStore_init Sample.healthy = Ok Sample.store0)
    by (vm_compute; reflexivity).
  destruct (store_always_complete Sample.healthy Sample.healthy
              [Sample.disk_down; Sample.offline] [] Sample.store0 "uptime" Hinit)
    as (_ & Hfirst & Hlater & _ & _ & Habsent).
  split; [exact Hinit|].
  split; [apply Hlater; unfold metric_keys;
          repeat first [apply list_elem_of_here | apply list_elem_of_further]|].
  split; [apply Hfirst; unfold metric_keys;
          repeat first [apply list_elem_of_here | apply list_elem_of_further]|].
  apply Habsent. vm_compute. reflexivity.
Defined.

Lemma probe_sensors_none (sys : System) (t : gmap string (list Q)) (keys : list string) :
  sensors_temperatures sys = Ok t →
  (∀ key, key ∈ keys → t !! key = None ∨ t !! key = Some []) →
  probe_sensors sys keys 0%Q = Ok 0%Q.
Proof.
  intros Ht. induction keys as [|key keys IH]; intros Hnone; [reflexivity|].
  cbn [probe_sensors]. rewrite Ht. cbn.
  destruct (Hnone key (list_elem_of_here _ _)) as [-> | ->];
    apply IH; intros k Hk; apply Hnone; now apply list_elem_of_further.
Qed.

Lemma background_refresh_two (sys next : System) (st : DataStore * list string) :
  background_refresh [sys; next] st
  = background_refresh_step next (background_refresh_step sys st).
Proof. reflexivity. Qed.

Lemma probe_sensors_returns (sys : System) (t : gmap string (list Q))
    (keys : list string) (temp : Q) :
  sensors_temperatures sys = Ok t → ∃ r, probe_sensors sys keys temp = Ok r.
Proof.
  intros Ht. induction keys as [|key keys [r IH]]; [now exists temp|].
  cbn [probe_sensors]. rewrite Ht. cbn.
  destruct (t !! key) as [[|r' rest]|]; eauto.
Qed.

Lemma bind_Ok {A B : Type} (a : A) (f : A → Exc B) : Ok a ≫= f = f a.
Proof. reflexivity. Qed.

Lemma bind_Raise {A B : Type} (e : string) (f : A → Exc B) :
  (Raise e : Exc A) ≫= f = Raise e.
Proof. reflexivity. Qed.

(** [get_cpu] raises exactly when the load cannot be read, or when neither
    the thermal zone nor the sensors can. *)
Lemma get_cpu_raises (sys : System) :
  (∃ e, get_cpu sys = Raise e)
  ↔ (∃ e, cpu_percent sys = Raise e)
    ∨ (∃ e e', thermal_zone0 sys = Raise e ∧ sensors_temperatures sys = Raise e').
Proof.
  unfold get_cpu. destruct (cpu_percent sys) as [pct|e0] eqn:Hpct.
  - rewrite bind_Ok. destruct (thermal_zone0 sys) as [temp|e1] eqn:Htherm;
      cbn [try_except].
    + rewrite bind_Ok. split; [intros [e He]; discriminate He|].
      intros [[e He]|(e & e' & He & _)]; discriminate He.
    + destruct (sensors_temperatures sys) as [t|e2] eqn:Hsens.
      * destruct (probe_sensors_returns sys t
                    ["cpu_thermal"; "cpu-thermal"; "coretemp"] 0%Q Hsens) as [r Hr].
        rewrite Hr, bind_Ok. split; [intros [e He]; discriminate He|].
        intros [[e He]|(e & e' & _ & He)]; discriminate He.
      * cbn [probe_sensors]. rewrite Hsens, !bind_Raise. split; [|eauto].
        intros _. right. eauto.
  - rewrite bind_Raise. split; [|eauto]. intros _. left. eauto.
Qed.

(** The interface loop raises exactly when the addresses cannot be read and
    some interface is up and is not "lo". *)
Lemma collect_ifaces_raises (sys : System) (stats : list (string * bool)) :
  (∃ e, collect_ifaces sys stats = Raise e)
  ↔ (∃ e iface, (iface, true) ∈ stats ∧ iface ≠ "lo" ∧ net_if_addrs sys = Raise e).
Proof.
  induction stats as [|[iface isup] stats IH].
  - split; [intros [e He]; discriminate He|].
    intros (e & iface & Hin & _). now apply elem_of_nil in Hin.
  - cbn [collect_ifaces].
    destruct (isup && bool_decide (iface ≠ "lo")) eqn:Hq.
    + apply andb_true_iff in Hq as [-> Hne]. apply bool_decide_eq_true in Hne.
      destruct (net_if_addrs sys) as [addrs|e0] eqn:Ha; cbn.
      * split.
        -- intros [e He]. destruct (collect_ifaces sys stats) as [more|e1] eqn:Hmore;
             [discriminate He|].
           destruct (proj1 IH (ex_intro _ e1 eq_refl)) as (e2 & i2 & _ & _ & He2).
           discriminate He2.
        -- intros (e & i & _ & _ & He). discriminate He.
      * split; [|eauto]. intros _. exists e0, iface.
        split; [apply list_elem_of_here|]. split; [exact Hne | reflexivity].
    + cbn. split.
      * intros [e He]. destruct (collect_ifaces sys stats) as [more|e1] eqn:Hmore;
          [discriminate He|].
        destruct (proj1 IH (ex_intro _ e1 eq_refl)) as (e2 & i2 & Hin & Hne & He2).
        exists e2, i2. split; [now apply list_elem_of_further|]. now split.
      * intros (e & i & Hin & Hne & He).
        apply elem_of_cons in Hin as [Hhead|Htail].
        -- injection Hhead as <- <-. cbn in Hq.
           rewrite bool_decide_eq_true_2 in Hq by exact Hne. discriminate Hq.
        -- destruct (proj2 IH (ex_intro _ e (ex_intro _ i (conj Htail (conj Hne He)))))
             as [e1 ->]. eauto.
Qed.

Lemma get_network_raises (sys : System) :
  (∃ e, get_network sys = Raise e)
  ↔ (∃ e, net_if_stats sys = Raise e)
    ∨ (∃ e stats iface, net_if_stats sys = Ok stats ∧ (iface, true) ∈ stats
                        ∧ iface ≠ "lo" ∧ net_if_addrs sys = Raise e).
Proof.
  unfold get_network. destruct (net_if_stats sys) as [stats|e0] eqn:Hs; cbn.
  - destruct (collect_ifaces sys stats) as [ifaces|e1] eqn:Hc; cbn.
    + split; [intros [e He]; discriminate He|].
      intros [[e He]|(e & stats' & iface & Hst & Hin & Hne & Ha)]; [discriminate He|].
      injection Hst as <-.
      destruct (proj2 (collect_ifaces_raises sys stats)
                  (ex_intro _ e (ex_intro _ iface (conj Hin (conj Hne Ha))))) as [e2 He2].
      rewrite Hc in He2. discriminate He2.
    + split; [|eauto]. intros _. right.
      destruct (proj1 (collect_ifaces_raises sys stats) (ex_intro _ e1 Hc))
        as (e2 & iface & Hin & Hne & Ha).
      exists e2, stats, iface. auto.
  - split; [|eauto]. intros _. left. eauto.
Qed.

(** [refresh] raises exactly on an unguarded failure. *)
Lemma refresh_raises (sys : System) (d : DataStore) :
  unguarded_failure sys ↔ ∃ e, refresh sys d = Raise e.
Proof.
  assert (Hhost : (∃ e, get_hostname sys = Raise e) ↔ (∃ e, gethostname sys = Raise e))
    by reflexivity.
  assert (Hram : (∃ e, get_ram_label sys = Raise e)
                 ↔ (∃ e, virtual_memory_total sys = Raise e)).
  { unfold get_ram_label. destruct (virtual_memory_total sys); cbn;
      split; intros [e He]; first [discriminate He | eauto]. }
  assert (Hdisk : (∃ e, get_disk sys = Raise e) ↔ (∃ e, disk_usage_root sys = Raise e)).
  { unfold get_disk. destruct (disk_usage_root sys); cbn;
      split; intros [e He]; first [discriminate He | eauto]. }
  pose proof (get_cpu_raises sys) as Hcpu.
  pose proof (get_network_raises sys) as Hnet.
  assert (Hany : (∃ e, refresh sys d = Raise e)
                 ↔ (∃ e, get_hostname sys = Raise e) ∨ (∃ e, get_ram_label sys = Raise e)
                   ∨ (∃ e, get_cpu sys = Raise e) ∨ (∃ e, get_network sys = Raise e)
                   ∨ (∃ e, get_disk sys = Raise e)).
  { unfold refresh, collect, get_ip.
    destruct (udp_sockname sys); cbn;
      destruct (get_hostname sys); cbn;
      destruct (get_ram_label sys); cbn;
      destruct (get_cpu sys); cbn;
      destruct (get_network sys); cbn;
      destruct (get_disk sys); cbn;
      (split; [intros [e He]; first [discriminate He | eauto 8]
              |intros Hor; first [now eauto
                                 |exfalso; decompose [or ex] Hor; discriminate]]). }
  unfold unguarded_failure. rewrite Hany, Hhost, Hram, Hcpu, Hnet, Hdisk. tauto.
Qed.

(** C7, as the program has it.  Three failures are absorbed where they
    occur, and [refresh] then goes on: [get_ip] never raises and yields
    "No IP" when the socket fails; [get_cpu] prints a temperature of 0.0
    when the thermal zone cannot be read and the sensors, asked, have no
    reading under any of the three keys; [get_network] shows DOWN when the
    TCP probe fails.  Every other failure, and no other case, makes
    [refresh] raise before the store is touched: a round of the background
    task then logs the error, keeps every stored value as it was, and the
    next round whose refresh succeeds stores that refresh's result.  A
    refresh that succeeds replaces the six entries by the collected values
    and leaves any other entry alone. *)
Theorem refresh_all_or_nothing (sys next : System) (d : DataStore) (log : list string) :
  (∃ ip, get_ip sys = Ok ip ∧ (∀ e, udp_sockname sys = Raise e → ip = "No IP"))
  ∧ (∀ e pct t, cpu_percent sys = Ok pct → thermal_zone0 sys = Raise e →
       sensors_temperatures sys = Ok t →
       (∀ key, key ∈ ["cpu_thermal"; "cpu-thermal"; "coretemp"]
               → t !! key = None ∨ t !! key = Some []) →
       get_cpu sys = Ok ("CPU:" +:+ fmt_f 0 pct +:+ "%  T:0.0C"))
  ∧ (∀ e stats ifaces, tcp_probe sys = Raise e → net_if_stats sys = Ok stats →
       collect_ifaces sys stats = Ok ifaces →
       get_network sys
       = Ok ("Net:" +:+ str_or (str_join "&" ifaces) "None" +:+ " [DOWN]"))
  ∧ (unguarded_failure sys ↔ ∃ e, refresh sys d = Raise e)
  ∧ (∀ d', refresh sys d = Ok d' →
       background_refresh_step sys (d, log) = (d', log)
       ∧ ∃ new, collect sys = Ok new
           ∧ (∀ k, k ∈ metric_keys → is_Some (new !! k))
           ∧ (∀ k, _data d' !! k = match new !! k with
                                   | Some v => Some v
                                   | None => _data d !! k
                                   end))
  ∧ (∀ e, refresh sys d = Raise e →
       background_refresh_step sys (d, log) = (d, log ++ ["Refresh error: " +:+ e])
       ∧ (∀ d'', refresh next d = Ok d'' →
            fst (background_refresh [sys; next] (d, log)) = d'')).
Proof.
  split; [|split; [|split; [|split; [|split]]]].
  - unfold get_ip. destruct (udp_sockname sys) as [ip|e0]; cbn.
    + exists ip. split; [reflexivity|]. intros e He. discriminate He.
    + exists "No IP". auto.
  - intros e pct t Hpct Htherm Ht Hnone. unfold get_cpu.
    rewrite Hpct, Htherm. cbn [try_except].
    rewrite (probe_sensors_none sys t _ Ht Hnone). reflexivity.
  - intros e stats ifaces Hprobe Hstats Hifaces. unfold get_network.
    rewrite Hprobe, Hstats. cbn. rewrite Hifaces. reflexivity.
  - apply refresh_raises.
  - intros d' Hr. split; [unfold background_refresh_step; cbn [fst snd]; now rewrite Hr|].
    apply refresh_ok in Hr as (new & Hnew & Hd'). exists new.
    split; [exact Hnew|]. split; [intros k Hk; now apply (collect_keys sys)|].
    intros k. rewrite Hd'. destruct (new !! k) as [v|] eqn:Ek.
    + now apply lookup_union_Some_l.
    + now apply lookup_union_r.
  - intros e Hr.
    assert (Estep : background_refresh_step sys (d, log)
                    = (d, log ++ ["Refresh error: " +:+ e]))
      by (unfold background_refresh_step; cbn [fst snd]; now rewrite Hr).
    split; [exact Estep|]. intros d'' Hnext.
    rewrite background_refresh_two, Estep.
    unfold background_refresh_step. cbn [fst snd]. now rewrite Hnext.
Qed.

Lemma refresh_all_or_nothing_witness :
  (get_ip Sample.offline = Ok "No IP"
   ∧ get_cpu Sample.offline = Ok "CPU:3%  T:0.0C"
   ∧ get_network Sample.offline = Ok "Net:None [DOWN]")
  ∧ (unguarded_failure Sample.disk_down
     ∧ ∃ e, refresh Sample.disk_down Sample.store0 = Raise e)
  ∧ (background_refresh_step Sample.disk_down (Sample.store0, [])
     = (Sample.store0, ["Refresh error: Input/output error"])
     ∧ get (fst (background_refresh [Sample.disk_down; Sample.offline]
                                    (Sample.store0, []))) "ip" = "No IP").
Proof.
  destruct (refresh_all_or_nothing Sample.offline Sample.healthy Sample.store0 [])
    as ((ip & Hip & Hdefault) & Hcpu & Hprobe & _).
  destruct (refresh_all_or_nothing Sample.disk_down Sample.offline Sample.store0 [])
    as (_ & _ & _ & Hraise & _ & Habort).
  destruct (Habort "Input/output error") as [Hstep Hnext];
    [vm_compute; reflexivity|].
  destruct (refresh Sample.offline Sample.store0) as [d''|e] eqn:Hr;
    [|vm_compute in Hr; discriminate Hr].
  assert (Hfail : unguarded_failure Sample.disk_down).
  { unfold unguarded_failure. do 6 right. now exists "Input/output error". }
  split; [split; [|split]|split; [split|split]].
  - rewrite Hip. f_equal. now apply (Hdefault "Network is unreachable").
  - rewrite (Hcpu "No such file or directory" (3 # 1)%Q
               (<["nvme" := [ (30 # 1)%Q ] ]> ∅) eq_refl eq_refl eq_refl).
    + vm_compute. reflexivity.
    + intros key Hkey. left. set_unfold.
      destruct Hkey as [->|[->|[->|[]]]]; vm_compute; reflexivity.
  - exact (Hprobe "Network is unreachable" _ [] eq_refl eq_refl eq_refl).
  - exact Hfail.
  - exact (proj1 Hraise Hfail).
  - exact Hstep.
  - rewrite (Hnext d'' eq_refl).
    assert (E : Ok d'' = refresh Sample.offline Sample.store0) by (symmetry; exact Hr).
    clear Hr Hnext. vm_compute in E. injection E as ->. vm_compute. reflexivity.
Defined.

(** C7, as stated, fails: with only the root file system unreadable,
    [refresh] raises, the constructor would raise too, and a background
    round keeps the previous disk line instead of a default and does not
    store the new address it could collect. *)
Lemma disk_failure_aborts_refresh :
  get_ip Sample.disk_down = Ok "10.0.0.7"
  ∧ get_disk Sample.disk_down = Raise "Input/output error"
  ∧ refresh Sample.disk_down Sample.store0 = Raise "Input/output error"
  ∧ DataStore_init Sample.disk_down = Raise "Input/output error"
  ∧ get (fst (background_refresh_step Sample.disk_down (Sample.store0, []))) "disk"
    = "Disk:12.3/59GB 21%"
  ∧ get (fst (background_refresh_step Sample.disk_down (Sample.store0, []))) "ip"
    = "192.168.1.50"
  ∧ ¬ (∀ sys d, ∃ d', refresh sys d = Ok d').
Proof.
  repeat (split; [vm_compute; reflexivity|]).
  intros Hall. destruct (Hall Sample.disk_down Sample.store0) as [d' Hd'].
  vm_compute in Hd'. discriminate Hd'.
Qed.

(** ** The disk line *)

Lemma append_empty_r (s : string) : s +:+ "" = s.
Proof.
  induction s as [|c s IH]; [reflexivity|].
  change (String c (s +:+ "") = String c s). now rewrite IH.
Qed.

Lemma append_assoc_r (a b c : string) : (a +:+ b) +:+ c = a +:+ b +:+ c.
Proof.
  induction a as [|ch a IH]; [reflexivity|].
  change (String ch ((a +:+ b) +:+ c) = String ch (a +:+ b +:+ c)). now rewrite IH.
Qed.

(** [round_half_even x] is within one half of [x]. *)
Lemma round_half_even_near (x : Q) :
  2 * Z.abs (Qnum x - round_half_even x * Z.pos (Qden x)) ≤ Z.pos (Qden x).
Proof.
  destruct x as [n d]. unfold round_half_even. cbn [Qnum Qden].
  pose proof (Z.div_mod n (Z.pos d) ltac:(lia)) as Hdm.
  pose proof (Z.mod_pos_bound n (Z.pos d) ltac:(lia)) as Hb.
  set (q := n / Z.pos d) in *. set (r := n mod Z.pos d) in *.
  destruct (Z.compare_spec (2 * r) (Z.pos d)); [destruct (Z.even q)|..]; lia.
Qed.

Lemma pretty_digit_length (k : Z) : 0 ≤ k < 10 → String.length (pretty k) = 1%nat.
Proof.
  intros Hk.
  assert (Hcases : k = 0 ∨ k = 1 ∨ k = 2 ∨ k = 3 ∨ k = 4 ∨ k = 5 ∨ k = 6
                   ∨ k = 7 ∨ k = 8 ∨ k = 9) by lia.
  repeat destruct Hcases as [->|Hcases]; try subst k; reflexivity.
Qed.

Lemma fmt_f_1_nonneg (x : Q) :
  (0 <= x)%Q →
  let m := round_half_even (Qabs x * inject_Z 10) in
  fmt_f 1 x = pretty (m / 10) +:+ "." +:+ pretty (m mod 10).
Proof.
  intros Hx m. unfold fmt_f. change (10 ^ Z.of_nat 1) with 10. fold m.
  destruct (Qlt_le_dec x 0) as [Hneg|_]; [now apply Qlt_not_le in Hneg|].
  cbn [digits_fixed]. rewrite Z.mod_mod by lia. reflexivity.
Qed.

Lemma fmt_f_0_nonneg (x : Q) :
  (0 <= x)%Q → fmt_f 0 x = pretty (round_half_even (Qabs x * inject_Z 1)).
Proof.
  intros Hx. unfold fmt_f. change (10 ^ Z.of_nat 0) with 1.
  destruct (Qlt_le_dec x 0) as [Hneg|_]; [now apply Qlt_not_le in Hneg|].
  rewrite Z.div_1_r, append_empty_r. reflexivity.
Qed.

Lemma gib_nonneg (a : Z) : 0 ≤ a → (0 <= py_truediv a (1024 ^ 3))%Q.
Proof.
  intros Ha. change (1024 ^ 3) with 1073741824.
  unfold py_truediv, Qle, Qdiv, Qmult, Qinv, inject_Z; simpl. lia.
Qed.

(** C9.  For a disk usage with non-negative figures, the byte counts below
    [2 ^ 53] so that their division is exact in floating point, the line is
    [Disk:<used>/<total>GB <pct>%]: the used bytes in GiB to the nearest
    tenth, printed with exactly one digit after the point, the total in GiB
    to the nearest integer and the percentage to the nearest integer; 12.3
    of 59 GiB at 21% prints as "Disk:12.3/59GB 21%". *)
Theorem disk_line_format (u : sdiskusage) (sys : System) :
  0 ≤ used u < 2 ^ 53 → 0 ≤ total u < 2 ^ 53 → (0 <= percent u)%Q →
  (disk_usage_root sys = Ok u → get_disk sys = Ok (disk_line u))
  ∧ disk_line {| total := 63350767616; used := 13207024435;
                 free := 50143743181; percent := 21 # 1 |}
    = "Disk:12.3/59GB 21%"
  ∧ ∃ tenths gb pct : Z,
      disk_line u = "Disk:" +:+ pretty (tenths / 10) +:+ "." +:+ pretty (tenths mod 10)
                      +:+ "/" +:+ pretty gb +:+ "GB " +:+ pretty pct +:+ "%"
      ∧ String.length (pretty (tenths mod 10)) = 1%nat
      ∧ (0 ≤ tenths ∧ 0 ≤ gb ∧ 0 ≤ pct)
      ∧ 2 * Z.abs (10 * used u - tenths * 1024 ^ 3) ≤ 1024 ^ 3
      ∧ 2 * Z.abs (total u - gb * 1024 ^ 3) ≤ 1024 ^ 3
      ∧ 2 * Z.abs (Qnum (percent u) - pct * Z.pos (Qden (percent u)))
        ≤ Z.pos (Qden (percent u)).
Proof.
  intros [Hused _] [Htotal _] Hpct.
  split; [intros Hu; unfold get_disk; now rewrite Hu|].
  split; [vm_compute; reflexivity|].
  set (tenths := round_half_even (Qabs (py_truediv (used u) (1024 ^ 3)) * inject_Z 10)).
  set (gb := round_half_even (Qabs (py_truediv (total u) (1024 ^ 3)) * inject_Z 1)).
  set (pct := round_half_even (Qabs (percent u) * inject_Z 1)).
  pose proof (round_half_even_near
                (Qabs (py_truediv (used u) (1024 ^ 3)) * inject_Z 10)) as Nt.
  pose proof (round_half_even_near
                (Qabs (py_truediv (total u) (1024 ^ 3)) * inject_Z 1)) as Ng.
  pose proof (round_half_even_near (Qabs (percent u) * inject_Z 1)) as Np.
  fold tenths in Nt. fold gb in Ng. fold pct in Np.
  change (1024 ^ 3) with 1073741824 in *.
  unfold py_truediv, Qdiv, Qmult, Qinv, Qabs, inject_Z in Nt, Ng.
  cbn [Qnum Qden] in Nt, Ng.
  destruct (percent u) as [pn pd] eqn:Epct.
  unfold Qmult, Qabs, inject_Z in Np. cbn [Qnum Qden] in Np.
  rewrite Pos.mul_1_r in Np.
  assert (Hpn : 0 ≤ pn) by (unfold Qle in Hpct; simpl in Hpct; lia).
  exists tenths, gb, pct. split; [|split; [|split; [|split; [|split]]]].
  - unfold disk_line.
    rewrite fmt_f_1_nonneg by now apply gib_nonneg.
    rewrite !fmt_f_0_nonneg by (rewrite ?Epct; auto using gib_nonneg).
    rewrite Epct, !append_assoc_r. reflexivity.
  - apply pretty_digit_length. apply Z.mod_pos_bound. lia.
  - split; [lia|]. split; [lia|].
    destruct (Z.le_gt_cases 0 pct) as [Hok|Hlt]; [exact Hok|].
    assert (pct * Z.pos pd ≤ - Z.pos pd) by nia. lia.
  - lia.
  - lia.
  - cbn [Qnum Qden]. lia.
Qed.

Lemma disk_line_format_witness :
  let u := {| total := 63350767616; used := 13207024435;
              free := 50143743181; percent := 21 # 1 |} in
  (0 ≤ used u < 2 ^ 53 ∧ 0 ≤ total u < 2 ^ 53 ∧ (0 <= percent u)%Q)
  ∧ get_disk Sample.healthy = Ok "Disk:12.3/59GB 21%".
Proof.
  intros u.
  assert (Hu : 0 ≤ used u < 2 ^ 53)
    by (vm_compute; split; [discriminate | reflexivity]).
  assert (Ht : 0 ≤ total u < 2 ^ 53)
    by (vm_compute; split; [discriminate | reflexivity]).
  assert (Hp : (0 <= percent u)%Q) by (vm_compute; discriminate).
  destruct (disk_line_format u Sample.healthy Hu Ht Hp) as (Hget & Hline & _).
  split; [auto|]. exact (eq_trans (Hget eq_refl) (f_equal Ok Hline)).
Defined.


(** * Part III: further properties *)

(** ** Fixed-point formatting *)

Lemma length_append (a b : string) :
  String.length (a +:+ b) = (String.length a + String.length b)%nat.
Proof.
  induction a as [|c a IH]; [reflexivity|].
  change (S (String.length (a +:+ b)) = S (String.length a + String.length b)).
  now rewrite IH.
Qed.

Lemma parse_digits_app (a b : string) (acc : Z) :
  parse_digits acc (a +:+ b) = parse_digits (parse_digits acc a) b.
Proof.
  revert acc. induction a as [|c a IH]; intros acc; [reflexivity|].
  change (parse_digits (acc * 10 + digit_value c) (a +:+ b)
          = parse_digits (parse_digits (acc * 10 + digit_value c) a) b).
  apply IH.
Qed.

Lemma pretty_digit_char (k : Z) :
  0 ≤ k < 10 → ∃ c, pretty k = String c EmptyString ∧ digit_value c = k.
Proof.
  intros Hk.
  assert (Hcases : k = 0 ∨ k = 1 ∨ k = 2 ∨ k = 3 ∨ k = 4 ∨ k = 5 ∨ k = 6
                   ∨ k = 7 ∨ k = 8 ∨ k = 9) by lia.
  repeat destruct Hcases as [->|Hcases]; try subst k;
    eexists; split; reflexivity.
Qed.

Lemma digits_fixed_parse (k : nat) (m acc : Z) :
  parse_digits acc (digits_fixed k m) = acc * 10 ^ Z.of_nat k + m mod 10 ^ Z.of_nat k.
Proof.
  revert m acc. induction k as [|k IH]; intros m acc.
  - cbn [digits_fixed parse_digits]. change (10 ^ Z.of_nat 0) with 1.
    rewrite Z.mod_1_r. lia.
  - cbn [digits_fixed]. rewrite parse_digits_app, IH.
    destruct (pretty_digit_char (m mod 10)) as (c & -> & Hc);
      [apply Z.mod_pos_bound; lia|].
    cbn [parse_digits]. rewrite Hc.
    rewrite Nat2Z.inj_succ, Z.pow_succ_r by lia.
    rewrite (Z.rem_mul_r m 10 (10 ^ Z.of_nat k)) by lia. lia.
Qed.

Lemma digits_fixed_length (k : nat) (m : Z) : String.length (digits_fixed k m) = k.
Proof.
  revert m. induction k as [|k IH]; intros m; [reflexivity|].
  cbn [digits_fixed]. rewrite length_append, IH.
  rewrite pretty_digit_length by (apply Z.mod_pos_bound; lia). lia.
Qed.

(** X1.  Printed with [prec > 0] decimals, a number shows its sign, the
    integer part of its rounded magnitude, a point and exactly [prec]
    digits, and these digits read back as the fractional part of the
    rounded magnitude, in units of [10 ^ -prec]. *)
Theorem fmt_f_fraction (prec : nat) (x : Q) :
  (0 < prec)%nat →
  let scale := 10 ^ Z.of_nat prec in
  let m := round_half_even (Qabs x * inject_Z scale) in
  ∃ frac,
    fmt_f prec x = (if Qlt_le_dec x 0 then "-" else "")
                     +:+ pretty (m / scale) +:+ "." +:+ frac
    ∧ String.length frac = prec
    ∧ (m / scale) * scale + parse_digits 0 frac = m.
Proof.
  intros Hprec scale m. exists (digits_fixed prec (m mod scale)).
  split; [|split].
  - unfold fmt_f. fold scale m. destruct prec; [lia|reflexivity].
  - apply digits_fixed_length.
  - rewrite digits_fixed_parse. fold scale.
    assert (Hscale : 0 < scale) by (apply Z.pow_pos_nonneg; lia).
    rewrite Z.mod_mod by lia.
    pose proof (Z.div_mod m scale ltac:(lia)). lia.
Qed.

Lemma fmt_f_fraction_witness :
  ∃ frac, fmt_f 2 (-1234567 # 1000) = "-" +:+ "1234" +:+ "." +:+ frac
          ∧ String.length frac = 2%nat
          ∧ 1234 * 100 + parse_digits 0 frac = 123457.
Proof.
  destruct (fmt_f_fraction 2 (-1234567 # 1000) ltac:(lia)) as (frac & Hf & Hl & Hv).
  exists frac. split; [exact Hf|]. split; [exact Hl|exact Hv].
Defined.

Lemma round_half_even_cases (n d : Z) (q : Z) :
  0 < d → d * q ≤ n < d * (q + 1) →
  n / d = q ∧ n mod d = n - d * q.
Proof.
  intros Hd Hq. assert (E : n / d = q).
  { symmetry. apply (Z.div_unique n d q (n - d * q)); lia. }
  split; [exact E|]. pose proof (Z.div_mod n d ltac:(lia)). rewrite E in *. lia.
Qed.

(** Rounding for display leaves an integer as it is and takes a value
    halfway between two integers to the even one. *)
Theorem round_half_even_ties (n : Z) :
  round_half_even (inject_Z n) = n
  ∧ round_half_even ((2 * n + 1) # 2) = (if Z.even n then n else n + 1)
  ∧ Z.even (round_half_even ((2 * n + 1) # 2)) = true.
Proof.
  assert (Htie : round_half_even ((2 * n + 1) # 2) = if Z.even n then n else n + 1).
  { unfold round_half_even. cbn [Qnum Qden].
    destruct (round_half_even_cases (2 * n + 1) 2 n) as [-> ->]; [lia|lia|].
    replace (2 * (2 * n + 1 - 2 * n)) with 2 by lia. reflexivity. }
  split; [|split].
  - unfold round_half_even, inject_Z. cbn [Qnum Qden].
    rewrite Z.div_1_r, Z.mod_1_r. reflexivity.
  - exact Htie.
  - rewrite Htie. destruct (Z.even n) eqn:E; [exact E|].
    rewrite Z.even_add, E. reflexivity.
Qed.

(** ** The clock line *)

(** X3.  For a valid time of day the clock line is "Time:" followed by
    hours, minutes and seconds on two digits each, separated by colons: it
    always has 13 characters and its fields read back as the time. *)
Theorem get_time_fields (sys : System) (h m s : Z) :
  datetime_now sys = (h, m, s) →
  0 ≤ h < 24 → 0 ≤ m < 60 → 0 ≤ s < 60 →
  String.length (get_time sys) = 13%nat
  ∧ ∃ hh mm ss,
      get_time sys = "Time:" +:+ hh +:+ ":" +:+ mm +:+ ":" +:+ ss
      ∧ (String.length hh = 2 ∧ String.length mm = 2 ∧ String.length ss = 2)%nat
      ∧ parse_digits 0 hh = h ∧ parse_digits 0 mm = m ∧ parse_digits 0 ss = s.
Proof.
  intros Hnow Hh Hm Hs. unfold get_time. rewrite Hnow. split.
  - rewrite !length_append, !digits_fixed_length. reflexivity.
  - exists (digits_fixed 2 h), (digits_fixed 2 m), (digits_fixed 2 s).
    split; [reflexivity|]. split; [now rewrite !digits_fixed_length|].
    rewrite !digits_fixed_parse. change (10 ^ Z.of_nat 2) with 100.
    rewrite !Z.mod_small by lia. lia.
Qed.

Lemma get_time_fields_witness :
  String.length (get_time Bench.sensor_fallback) = 13%nat
  ∧ get_time Bench.sensor_fallback = "Time:23:59:59".
Proof.
  destruct (get_time_fields Bench.sensor_fallback 23 59 59 eq_refl
              ltac:(lia) ltac:(lia) ltac:(lia)) as [Hlen _].
  split; [exact Hlen | reflexivity].
Defined.

(** ** The CPU line *)

(** X4.  Where the CPU load can be read, the temperature comes from the
    thermal zone file whenever that can be read, without the sensors being
    asked; otherwise from the first of cpu_thermal, cpu-thermal, coretemp
    that has a reading, taking its first reading; and if the sensors cannot
    be asked either, [get_cpu] raises their error. *)
Theorem get_cpu_temperature_source (sys : System) (pct : Q) :
  cpu_percent sys = Ok pct →
  let line := λ temp : Q, "CPU:" +:+ fmt_f 0 pct +:+ "%  T:" +:+ fmt_f 1 temp +:+ "C" in
  (∀ temp, thermal_zone0 sys = Ok temp → get_cpu sys = Ok (line temp))
  ∧ (∀ e e', thermal_zone0 sys = Raise e → sensors_temperatures sys = Raise e' →
       get_cpu sys = Raise e')
  ∧ (∀ e t, thermal_zone0 sys = Raise e → sensors_temperatures sys = Ok t →
       (∀ r rest, t !! "cpu_thermal" = Some (r :: rest) → get_cpu sys = Ok (line r))
       ∧ (∀ r rest, (t !! "cpu_thermal" = None ∨ t !! "cpu_thermal" = Some []) →
            t !! "cpu-thermal" = Some (r :: rest) → get_cpu sys = Ok (line r))
       ∧ (∀ r rest, (t !! "cpu_thermal" = None ∨ t !! "cpu_thermal" = Some []) →
            (t !! "cpu-thermal" = None ∨ t !! "cpu-thermal" = Some []) →
            t !! "coretemp" = Some (r :: rest) → get_cpu sys = Ok (line r))).
Proof.
  intros Hpct line. unfold get_cpu. rewrite Hpct. split; [|split].
  - intros temp Ht. rewrite Ht. reflexivity.
  - intros e e' Ht Hs. rewrite Ht. cbn [try_except probe_sensors]. rewrite Hs.
    reflexivity.
  - intros e t Ht Hs. rewrite Ht. cbn [try_except probe_sensors]. rewrite Hs.
    split; [|split].
    + intros r rest H1. cbn. rewrite H1. reflexivity.
    + intros r rest H1 H2. cbn. destruct H1 as [-> | ->]; rewrite H2; reflexivity.
    + intros r rest H1 H2 H3. cbn.
      destruct H1 as [-> | ->]; destruct H2 as [-> | ->]; rewrite H3; reflexivity.
Qed.

Lemma get_cpu_temperature_source_witness :
  get_cpu Bench.sensor_fallback = Ok "CPU:7%  T:51.2C"
  ∧ get_cpu Sample.healthy = Ok "CPU:12%  T:48.3C".
Proof.
  destruct (get_cpu_temperature_source Bench.sensor_fallback (7 # 1) eq_refl)
    as (_ & _ & Hsensors).
  destruct (Hsensors "No such file or directory" _ eq_refl eq_refl) as (_ & Hsecond & _).
  destruct (get_cpu_temperature_source Sample.healthy (25 # 2) eq_refl)
    as (Hzone & _ & _).
  split.
  - rewrite (Hsecond (512 # 10)%Q []); [vm_compute; reflexivity | | ].
    + right. vm_compute. reflexivity.
    + vm_compute. reflexivity.
  - rewrite (Hzone (48312 # 1000)%Q eq_refl). vm_compute. reflexivity.
Defined.

(** ** The network line *)

Lemma substring_length (n : nat) (s : string) :
  (String.length (String.substring 0 n s) ≤ n)%nat.
Proof.
  revert s. induction n as [|n IH]; intros [|c s]; cbn; try lia.
  specialize (IH s). lia.
Qed.

Lemma collect_ifaces_idle (sys : System) (stats : list (string * bool)) :
  Forall (λ p, p.2 = false ∨ p.1 = "lo") stats →
  collect_ifaces sys stats = Ok [].
Proof.
  induction 1 as [|[iface isup] stats Hhead _ IH]; [reflexivity|].
  cbn [collect_ifaces].
  assert (E : isup && bool_decide (iface ≠ "lo") = false).
  { destruct Hhead as [Hdown|Hlo].
    - cbn in Hdown. now rewrite Hdown.
    - cbn in Hlo. rewrite bool_decide_eq_false_2 by (intros Hne; now apply Hne).
      apply andb_false_r. }
  rewrite E, IH. reflexivity.
Qed.

Lemma collect_ifaces_names (sys : System) (addrs : gmap string (list snicaddr))
    (stats : list (string * bool)) :
  net_if_addrs sys = Ok addrs →
  ∃ ifaces, collect_ifaces sys stats = Ok ifaces
            ∧ Forall (λ name, (String.length name ≤ 5)%nat) ifaces
            ∧ (length ifaces ≤ length stats)%nat.
Proof.
  intros Ha. induction stats as [|[iface isup] stats (ifaces & Hc & Hshort & Hlen)].
  - exists []. repeat split; [constructor | reflexivity].
  - cbn [collect_ifaces]. rewrite Ha, Hc.
    destruct (isup && bool_decide (iface ≠ "lo")); cbn;
      [destruct (has_ipv4 (default [] (addrs !! iface))); cbn|].
    + eexists. split; [reflexivity|]. split; [|cbn; lia].
      constructor; [apply substring_length | exact Hshort].
    + exists ifaces. split; [reflexivity|]. split; [exact Hshort | cbn; lia].
    + exists ifaces. split; [reflexivity|]. split; [exact Hshort | cbn; lia].
Qed.

(** X5.  Where the interface statistics and addresses can be read,
    [get_network] returns "Net:", the listed interfaces joined by "&" (or
    "None"), and "[UP]" or "[DOWN]" as the TCP probe succeeds or fails: a
    failed probe is never an error.  Each listed name has at most five
    characters and there are no more names than interfaces. *)
Theorem get_network_line (sys : System) (stats : list (string * bool))
    (addrs : gmap string (list snicaddr)) :
  net_if_stats sys = Ok stats → net_if_addrs sys = Ok addrs →
  ∃ ifaces,
    get_network sys
    = Ok ("Net:" +:+ str_or (str_join "&" ifaces) "None" +:+ " ["
            +:+ (match tcp_probe sys with Ok _ => "UP" | Raise _ => "DOWN" end)
            +:+ "]")
    ∧ Forall (λ name, (String.length name ≤ 5)%nat) ifaces
    ∧ (length ifaces ≤ length stats)%nat.
Proof.
  intros Hs Ha.
  destruct (collect_ifaces_names sys addrs stats Ha) as (ifaces & Hc & Hshort & Hlen).
  exists ifaces. split; [|split; assumption].
  unfold get_network. rewrite Hs. cbn. rewrite Hc. cbn.
  now destruct (tcp_probe sys).
Qed.

Lemma get_network_line_witness :
  ∃ ifaces,
    get_network Sample.healthy
    = Ok ("Net:" +:+ str_or (str_join "&" ifaces) "None" +:+ " [UP]")
    ∧ Forall (λ name, (String.length name ≤ 5)%nat) ifaces
    ∧ (length ifaces ≤ 3)%nat.
Proof.
  destruct (net_if_addrs Sample.healthy) as [addrs|] eqn:Ha; [|discriminate Ha].
  exact (get_network_line Sample.healthy _ addrs eq_refl Ha).
Defined.

(** X6.  When every interface is down or is the loopback, the addresses are
    never asked for: [get_network] returns "Net:None [UP]" or
    "Net:None [DOWN]" even where reading the addresses would raise. *)
Theorem get_network_idle (sys : System) (stats : list (string * bool)) :
  net_if_stats sys = Ok stats →
  Forall (λ p, p.2 = false ∨ p.1 = "lo") stats →
  get_network sys
  = Ok (match tcp_probe sys with
        | Ok _ => "Net:None [UP]"
        | Raise _ => "Net:None [DOWN]"
        end).
Proof.
  intros Hs Hidle. unfold get_network. rewrite Hs. cbn.
  rewrite (collect_ifaces_idle sys stats Hidle). cbn.
  now destruct (tcp_probe sys).
Qed.

Lemma get_network_idle_witness :
  net_if_addrs Bench.sensor_fallback = Raise "Permission denied"
  ∧ get_network Bench.sensor_fallback = Ok "Net:None [UP]".
Proof.
  split; [reflexivity|].
  apply (get_network_idle Bench.sensor_fallback [("lo", true); ("wlan0", false)] eq_refl).
  constructor; [right; reflexivity|]. constructor; [left; reflexivity|]. constructor.
Defined.

(** ** More on the data store *)

Lemma collect_dom (sys : System) (new : gmap string string) :
  collect sys = Ok new → dom new = list_to_set metric_keys.
Proof.
  intros Hc. apply collect_ok in Hc as (? & ? & ? & ? & ? & ? & _ & _ & _ & _ & _ & _ & ->).
  rewrite !dom_insert_L, dom_empty_L. reflexivity.
Qed.

Lemma union_same_dom (new old d : gmap string string) :
  dom old = dom new → new ∪ (old ∪ d) = new ∪ d.
Proof.
  intros Hdom. apply map_eq. intros k.
  destruct (new !! k) as [v|] eqn:Ek.
  - rewrite (lookup_union_Some_l new (old ∪ d) k v Ek).
    now rewrite (lookup_union_Some_l new d k v Ek).
  - rewrite (lookup_union_r new (old ∪ d) k Ek), (lookup_union_r new d k Ek).
    apply lookup_union_r. apply not_elem_of_dom. rewrite Hdom.
    now apply not_elem_of_dom.
Qed.

(** X7.  A refresh that succeeds leaves nothing of an earlier one behind:
    repeating it on its own result changes nothing, and any refresh after it
    gives the same outcome, store or error, as it would have given
    without it. *)
Theorem refresh_last_wins (a b : System) (d da : DataStore) :
  refresh a d = Ok da →
  refresh a da = Ok da ∧ refresh b da = refresh b d.
Proof.
  intros Ha. apply refresh_ok in Ha as (new & Hnew & Hda).
  destruct da as [mda]. cbn in Hda. subst mda. unfold refresh. split.
  - rewrite Hnew. cbn. unfold dict_update. do 2 f_equal.
    now apply union_same_dom.
  - destruct (collect b) as [newb|e] eqn:Hb; [|reflexivity].
    cbn. unfold dict_update. do 2 f_equal. apply union_same_dom.
    rewrite (collect_dom a new Hnew). symmetry. now apply (collect_dom b).
Qed.

Lemma refresh_last_wins_witness :
  refresh Sample.healthy Sample.store0 = Ok Sample.store0
  ∧ refresh Sample.offline Sample.store0
    = refresh Sample.offline {| _data := ∅ |}.
Proof.
  assert (Hinit : refresh Sample.healthy {| _data := ∅ |} = Ok Sample.store0)
    by (vm_compute; reflexivity).
  exact (refresh_last_wins Sample.healthy Sample.offline _ _ Hinit).
Defined.

Lemma refresh_dom (sys : System) (self self' : DataStore) :
  refresh sys self = Ok self' →
  dom (_data self') = list_to_set metric_keys ∪ dom (_data self).
Proof.
  intros Hr. apply refresh_ok in Hr as (new & Hnew & ->).
  now rewrite dom_union_L, (collect_dom sys new Hnew).
Qed.

Lemma background_refresh_dom (rounds : list System) (st : DataStore * list string) :
  dom (_data (fst st)) = list_to_set metric_keys →
  dom (_data (fst (background_refresh rounds st))) = list_to_set metric_keys.
Proof.
  revert st. induction rounds as [|sys rounds IH]; intros st Hst; [exact Hst|].
  apply (IH (background_refresh_step sys st)).
  unfold background_refresh_step.
  destruct (refresh sys (fst st)) as [store'|e] eqn:Hr; cbn [fst]; [|exact Hst].
  rewrite (refresh_dom _ _ _ Hr), Hst. apply union_idemp_L.
Qed.

(** X8.  The store never holds anything but the six metrics: after its
    construction and any rounds of the background refresh its keys are
    exactly ip, hostname, ram, cpu, network and disk, so [get] of any other
    key is the empty string. *)
Theorem store_keys_exact (sys0 : System) (rounds : list System) (log : list string)
    (d0 : DataStore) (key : string) :
  DataStore_init sys0 = Ok d0 →
  let d := fst (background_refresh rounds (d0, log)) in
  dom (_data d) = list_to_set metric_keys
  ∧ (key ∉ metric_keys → get d key = "").
Proof.
  intros Hinit d.
  assert (Hdom : dom (_data d) = list_to_set metric_keys).
  { apply background_refresh_dom. cbn [fst].
    rewrite (refresh_dom _ _ _ Hinit). cbn [_data].
    rewrite dom_empty_L. apply (right_id_L ∅ (∪)). }
  split; [exact Hdom|]. intros Hkey. unfold get.
  assert (Hnone : _data d !! key = None).
  { apply not_elem_of_dom. rewrite Hdom. now rewrite elem_of_list_to_set. }
  now rewrite Hnone.
Qed.

Lemma store_keys_exact_witness :
  get (fst (background_refresh [Sample.offline; Sample.disk_down]
                               (Sample.store0, []))) "time" = "".
Proof.
  assert (Hinit : DataStore_init Sample.healthy = Ok Sample.store0)
    by (vm_compute; reflexivity).
  destruct (store_keys_exact Sample.healthy [Sample.offline; Sample.disk_down] []
              Sample.store0 "time" Hinit) as [_ Hget].
  apply Hget. unfold metric_keys. intros Hin.
  repeat (apply elem_of_cons in Hin as [Hin|Hin]; [discriminate Hin|]).
  now apply elem_of_nil in Hin.
Defined.

Lemma refresh_raises_iff (sys : System) (d : DataStore) :
  collects sys = false → ∃ e, refresh sys d = Raise e.
Proof.
  unfold collects, refresh. destruct (collect sys) as [new|e]; [discriminate|].
  intros _. now exists e.
Qed.

Lemma refresh_returns_iff (sys : System) (d : DataStore) :
  collects sys = true → ∃ d', refresh sys d = Ok d'.
Proof.
  unfold collects, refresh. destruct (collect sys) as [new|e]; [|discriminate].
  intros _. eexists. reflexivity.
Qed.

Lemma background_refresh_cons (sys : System) (rounds : list System)
    (st : DataStore * list string) :
  background_refresh (sys :: rounds) st
  = background_refresh rounds (background_refresh_step sys st).
Proof. reflexivity. Qed.

Lemma background_refresh_store (rounds : list System) (d : DataStore)
    (log log' : list string) :
  fst (background_refresh rounds (d, log)) = fst (background_refresh rounds (d, log')).
Proof.
  revert d log log'. induction rounds as [|sys rounds IH]; intros d log log';
    [reflexivity|].
  rewrite !background_refresh_cons. unfold background_refresh_step. cbn [fst snd].
  destruct (refresh sys d); apply IH.
Qed.

(** X9.  Over any rounds of the background task, the rounds whose refresh
    raises change nothing in the store and add one line each to what is
    printed; the rounds whose refresh returns print nothing.  The store at
    the end is the one the successful rounds alone would have produced. *)
Theorem background_refresh_failures (rounds : list System) (d : DataStore)
    (log : list string) :
  fst (background_refresh rounds (d, log))
  = fst (background_refresh (filter (λ sys, collects sys = true) rounds) (d, log))
  ∧ length (snd (background_refresh rounds (d, log)))
    = (length log + length (filter (λ sys, collects sys = false) rounds))%nat.
Proof.
  revert d log. induction rounds as [|sys rounds IH]; intros d log.
  - split; [reflexivity | cbn; lia].
  - rewrite background_refresh_cons. destruct (collects sys) eqn:Hc.
    + rewrite (filter_cons_True (λ s, collects s = true) sys rounds Hc).
      rewrite (filter_cons_False (λ s, collects s = false) sys rounds)
        by (rewrite Hc; discriminate).
      rewrite background_refresh_cons.
      destruct (refresh_returns_iff sys d Hc) as [d' Hd'].
      unfold background_refresh_step. cbn [fst snd]. rewrite Hd'. apply IH.
    + rewrite (filter_cons_True (λ s, collects s = false) sys rounds Hc).
      rewrite (filter_cons_False (λ s, collects s = true) sys rounds)
        by (rewrite Hc; discriminate).
      destruct (refresh_raises_iff sys d Hc) as [e He].
      unfold background_refresh_step. cbn [fst snd]. rewrite He.
      destruct (IH d (log ++ ["Refresh error: " +:+ e])) as [IHs IHl].
      split.
      * rewrite IHs. apply background_refresh_store.
      * rewrite IHl, length_app. cbn. lia.
Qed.

(** ** More on the scroller *)

Section ScrollerMore.
Context `{PIL}.

Lemma with_offset_same (self : Scroller) : with_offset self (offset self) = self.
Proof. now destruct self. Qed.

Lemma tick_as_with_offset (self : Scroller) :
  tick self = with_offset self (offset (tick self)).
Proof.
  unfold tick. destruct (_scrolling self); [|now rewrite with_offset_same].
  now destruct (_ <=? _).
Qed.

Lemma ticks_as_with_offset (n : nat) (self : Scroller) :
  ticks n self = with_offset self (offset (ticks n self)).
Proof.
  induction n as [|n IH]; [cbn; now rewrite with_offset_same|].
  rewrite ticks_succ, tick_as_with_offset. rewrite IH at 1. reflexivity.
Qed.

Lemma ticks_add (j n : nat) (self : Scroller) :
  ticks (j + n) self = ticks j (ticks n self).
Proof. unfold ticks. apply Nat.iter_add. Qed.

Lemma ticks_offset_mod (k : nat) (self : Scroller) :
  _scrolling self = true →
  0 ≤ offset self < _width self + SCROLL_GAP →
  offset (ticks k self) = (offset self + Z.of_nat k) mod (_width self + SCROLL_GAP).
Proof.
  intros Hs Ho. set (W := _width self + SCROLL_GAP) in *.
  induction k as [|k IH].
  - cbn. rewrite Z.add_0_r, Z.mod_small by lia. reflexivity.
  - rewrite ticks_succ. unfold tick.
    destruct (ticks_fields k self) as (_ & _ & Hw & Hscr & _).
    rewrite Hscr, Hs, Hw, IH. fold W.
    pose proof (Z.mod_pos_bound (offset self + Z.of_nat k) W ltac:(lia)) as Hb.
    replace (offset self + Z.of_nat (S k)) with (offset self + Z.of_nat k + 1) by lia.
    rewrite <- (Z.add_mod_idemp_l (offset self + Z.of_nat k) 1 W) by lia.
    unfold SCROLL_SPEED.
    destruct (Z.leb_spec W ((offset self + Z.of_nat k) mod W + 1)); cbn [offset with_offset].
    + replace ((offset self + Z.of_nat k) mod W + 1) with W by lia.
      now rewrite Z.mod_same by lia.
    + now rewrite (Z.mod_small ((offset self + Z.of_nat k) mod W + 1) W) by lia.
Qed.

(** X10.  A scrolling line, wherever it stands, is after [k] ticks at
    [(offset + k) mod (width + gap)]: after [width + gap] ticks the scroller
    is exactly as it was, and so are all later positions, one loop on. *)
Theorem scroll_is_periodic (max_height : Z) (ops : list ScrollerOp) (k : nat) :
  let s := run_ops ops (Scroller_init max_height) in
  let loop_w := _width s + SCROLL_GAP in
  _scrolling s = true →
  offset (ticks k s) = (offset s + Z.of_nat k) mod loop_w
  ∧ ticks (Z.to_nat loop_w) s = s
  ∧ ticks (k + Z.to_nat loop_w) s = ticks k s.
Proof.
  intros s loop_w Hs.
  assert (Hok : scroller_ok s) by (apply scroller_ok_run, scroller_ok_init).
  destruct Hok as [_ Ho]. rewrite Hs in Ho.
  assert (Hloop : ticks (Z.to_nat loop_w) s = s).
  { rewrite ticks_as_with_offset, ticks_offset_mod by assumption.
    fold loop_w. rewrite Z2Nat.id by lia.
    replace (offset s + loop_w) with (offset s + 1 * loop_w) by lia.
    rewrite Z.mod_add, Z.mod_small by lia. apply with_offset_same. }
  split; [now apply ticks_offset_mod|]. split; [exact Hloop|].
  now rewrite ticks_add, Hloop.
Qed.

Lemma set_text_font (self : Scroller) (text : string) (f : option Font) :
  _text (set self text f) = text ∧ _font (set self text f) = default font f.
Proof.
  unfold set.
  destruct (bool_decide (text ≠ _text self)) eqn:Bt; cbn [orb]; [auto|].
  destruct (bool_decide (default font f ≠ _font self)) eqn:Bf; cbn [orb]; [auto|].
  apply bool_decide_eq_false in Bt, Bf.
  split; [destruct (decide (text = _text self))
         | destruct (decide (default font f = _font self))];
    first [congruence | contradiction].
Qed.

Lemma measured_step (self : Scroller) (op : ScrollerOp) :
  (_text self = "" ∧ _font self = font ∧ _width self = 0)
  ∨ _width self = text_px_width (_text self) (_font self) →
  (_text (apply_op self op) = "" ∧ _font (apply_op self op) = font
   ∧ _width (apply_op self op) = 0)
  ∨ _width (apply_op self op)
    = text_px_width (_text (apply_op self op)) (_font (apply_op self op)).
Proof.
  intros Hm. destruct op as [text f| |]; cbn [apply_op].
  - unfold set. destruct (_ || _); [right; reflexivity | exact Hm].
  - exact Hm.
  - destruct (tick_fields self) as (-> & -> & -> & _). exact Hm.
Qed.

Lemma measured_run (ops : list ScrollerOp) (self : Scroller) :
  (_text self = "" ∧ _font self = font ∧ _width self = 0)
  ∨ _width self = text_px_width (_text self) (_font self) →
  (_text (run_ops ops self) = "" ∧ _font (run_ops ops self) = font
   ∧ _width (run_ops ops self) = 0)
  ∨ _width (run_ops ops self)
    = text_px_width (_text (run_ops ops self)) (_font (run_ops ops self)).
Proof.
  revert self. induction ops as [|op ops IH]; intros self Hm; [exact Hm|].
  apply IH. now apply measured_step.
Qed.

Lemma moves_keep_fields (ops : list ScrollerOp) (self : Scroller) :
  Forall (λ op, op = OpTick ∨ op = OpReset) ops →
  _text (run_ops ops self) = _text self ∧ _font (run_ops ops self) = _font self.
Proof.
  intros Hops. revert self. induction Hops as [|op ops Hop _ IH]; intros self;
    [auto|].
  change (run_ops (op :: ops) self) with (run_ops ops (apply_op self op)).
  destruct (IH (apply_op self op)) as [-> ->].
  destruct Hop as [-> | ->]; cbn [apply_op].
  - destruct (tick_fields self) as (-> & -> & _). auto.
  - auto.
Qed.

(** X11.  The scroller always shows the text and font of the last [set],
    whatever ticks and resets followed, and whatever came before.  Its width
    is the measured width of that text, and it scrolls exactly when that
    width exceeds the display, except for a scroller that has only ever been
    given the empty text in the default font: that one keeps its initial
    width 0 without a measurement. *)
Theorem scroller_shows_last_set (max_height : Z) (before after : list ScrollerOp)
    (text : string) (f : option Font) :
  Forall (λ op, op = OpTick ∨ op = OpReset) after →
  let s := run_ops (before ++ OpSet text f :: after) (Scroller_init max_height) in
  _text s = text
  ∧ _font s = default font f
  ∧ ((text = "" ∧ default font f = font ∧ _width s = 0)
     ∨ _width s = text_px_width text (default font f))
  ∧ _scrolling s = (DISPLAY_W <? _width s).
Proof.
  intros Hafter s.
  assert (Hs : s = run_ops after (set (run_ops before (Scroller_init max_height)) text f)).
  { unfold s, run_ops. now rewrite foldl_app. }
  assert (Htf : _text s = text ∧ _font s = default font f).
  { rewrite Hs.
    destruct (moves_keep_fields after
                (set (run_ops before (Scroller_init max_height)) text f) Hafter)
      as [-> ->].
    apply set_text_font. }
  destruct Htf as [Ht Hf].
  assert (Hm := measured_run (before ++ OpSet text f :: after)
                  (Scroller_init max_height) (or_introl (conj eq_refl (conj eq_refl eq_refl)))).
  fold s in Hm. rewrite Ht, Hf in Hm.
  assert (Hok : scroller_ok s) by (apply scroller_ok_run, scroller_ok_init).
  split; [exact Ht|]. split; [exact Hf|]. split; [exact Hm | exact (proj1 Hok)].
Qed.
End ScrollerMore.

Lemma scroll_is_periodic_witness :
  let s := run_ops [OpSet Sample.wide_text None; OpTick; OpTick; OpTick]
                   (Scroller_init (H := Sample.fixed_pitch) LINE_HEIGHT) in
  _scrolling s = true
  ∧ offset (ticks 166 s) = 1
  ∧ ticks 168 s = s.
Proof.
  intros s.
  assert (Hs : _scrolling s = true) by (vm_compute; reflexivity).
  destruct (scroll_is_periodic (H := Sample.fixed_pitch) LINE_HEIGHT
              [OpSet Sample.wide_text None; OpTick; OpTick; OpTick] 166 Hs)
    as (Hoff & Hloop & _).
  split; [exact Hs|]. split; [|exact Hloop].
  subst s. rewrite Hoff. vm_compute. reflexivity.
Defined.

Lemma scroller_shows_last_set_witness :
  let s := run_ops ([OpSet "CPU:12%  T:48.3C" None; OpTick]
                    ++ OpSet "IP:No IP" (Some font_bold) :: [OpTick; OpReset; OpTick])
                   (Scroller_init (H := Sample.fixed_pitch) LINE_HEIGHT) in
  _text s = "IP:No IP" ∧ _width s = 88 ∧ _scrolling s = false.
Proof.
  intros s.
  destruct (scroller_shows_last_set (H := Sample.fixed_pitch) LINE_HEIGHT
              [OpSet "CPU:12%  T:48.3C" None; OpTick] [OpTick; OpReset; OpTick]
              "IP:No IP" (Some font_bold)) as (Ht & _ & Hw & Hscr).
  - constructor; [left; reflexivity|]. constructor; [right; reflexivity|].
    constructor; [left; reflexivity|]. constructor.
  - subst s. split; [exact Ht|].
    destruct Hw as [(Hempty & _) | Hw]; [discriminate Hempty|].
    split; [rewrite Hw; vm_compute; reflexivity|].
    rewrite Hscr, Hw. vm_compute. reflexivity.
Defined.

(** ** More on the frames *)

(** Unfolds the layout constants for [lia]. *)
Ltac layout :=
  unfold Y_LINE4, Y_LINE3, Y_DIVIDER, Y_LINE2, Y_LINE1, LINE_HEIGHT,
    DISPLAY_W, DISPLAY_H in *.

Section FramesMore.
Context `{PIL}.

Lemma draw_ellipse_elsewhere (im : Image) (x0 y0 x1 y1 : Z) (fill : bool) (x r : Z) :
  ¬ (x0 ≤ x ≤ x1 ∧ y0 ≤ r ≤ y1) →
  im_px (draw_ellipse im (x0, y0, x1, y1) fill) x r = im_px im x r.
Proof.
  intros Hout. unfold draw_ellipse. cbn [im_px].
  destruct (in_box (x0, y0, x1 + 1, y1 + 1) x r) eqn:Ebox.
  - apply in_box_spec in Ebox. lia.
  - now rewrite andb_false_r.
Qed.

Lemma draw_hline_elsewhere (im : Image) (x0 x1 y x r : Z) :
  r ≠ y → im_px (draw_hline im x0 x1 y) x r = im_px im x r.
Proof.
  intros Hr. unfold draw_hline. cbn [im_px].
  destruct (Z.eqb_spec r y); [contradiction|].
  now rewrite andb_false_r.
Qed.

(** Inside its band a line replaces what the image had. *)
Lemma draw_onto_band (self : Scroller) (image : Image) (y x r : Z) :
  inside image x (y + r) = true → 0 ≤ x < DISPLAY_W → 0 ≤ r < _max_h self →
  im_px (draw_onto self image y) x (y + r) = getpixel (line_band self) x r.
Proof.
  intros Hin Hx Hr. unfold draw_onto, paste. cbn [im_px]. rewrite Hin. cbn [andb].
  destruct (line_band_size self) as [-> ->].
  assert (Ebox : in_box (0, y, 0 + DISPLAY_W, y + _max_h self) x (y + r) = true)
    by (apply in_box_spec; lia).
  rewrite Ebox. f_equal; lia.
Qed.

Lemma render_inside (page : Z) (l : Loop) (x r : Z) :
  0 ≤ x < 128 → 0 ≤ r < 64 → inside (render page l) x r = true.
Proof.
  intros Hx Hr. apply inside_spec.
  change (im_w (render page l)) with 128. change (im_h (render page l)) with 64. lia.
Qed.

Lemma blank_inside (x row : Z) :
  0 ≤ x < 128 → 0 ≤ row < 64 →
  inside (Image_new DISPLAY_W DISPLAY_H) x row = true.
Proof. intros Hx Hrow. apply inside_spec. cbn [im_w im_h Image_new]. layout. lia. Qed.

(** X12.  In a frame, each of the four bands of 14 rows shows exactly its
    own line, as that line's scroller renders it: no line draws over
    another, and the divider touches none of them.  Only the page dots
    overlap a band: the last two rows of line 4, in columns 115 to 125. *)
Theorem frame_lanes (page : Z) (l : Loop) (x r : Z) :
  _max_h (s1 l) = LINE_HEIGHT ∧ _max_h (s2 l) = LINE_HEIGHT
  ∧ _max_h (s3 l) = LINE_HEIGHT ∧ _max_h (s4 l) = LINE_HEIGHT →
  0 ≤ x < DISPLAY_W → 0 ≤ r < LINE_HEIGHT →
  getpixel (render page l) x (Y_LINE1 + r) = getpixel (line_band (s1 l)) x r
  ∧ getpixel (render page l) x (Y_LINE2 + r) = getpixel (line_band (s2 l)) x r
  ∧ getpixel (render page l) x (Y_LINE3 + r) = getpixel (line_band (s3 l)) x r
  ∧ (Y_LINE4 + r < 59 ∨ x < 115 ∨ 125 < x →
     getpixel (render page l) x (Y_LINE4 + r) = getpixel (line_band (s4 l)) x r).
Proof.
  intros (H1 & H2 & H3 & H4) Hx Hr.
  split; [|split; [|split]]; [| | |intros Hdots];
    unfold getpixel at 1;
    rewrite render_inside by (layout; lia); cbn [andb];
    unfold render;
    rewrite !draw_ellipse_elsewhere by (layout; lia);
    rewrite draw_hline_elsewhere by (layout; lia).
  - rewrite !draw_onto_lane by (rewrite ?H2, ?H3, ?H4; layout; lia).
    apply draw_onto_band; [apply blank_inside | | rewrite H1]; layout; lia.
  - rewrite !draw_onto_lane by (rewrite ?H3, ?H4; layout; lia).
    apply draw_onto_band; [apply blank_inside | | rewrite H2]; layout; lia.
  - rewrite !draw_onto_lane by (rewrite ?H4; layout; lia).
    apply draw_onto_band; [apply blank_inside | | rewrite H3]; layout; lia.
  - apply draw_onto_band; [apply blank_inside | | rewrite H4]; layout; lia.
Qed.
End FramesMore.

Section FramesMore2.
Context `{PIL}.

(** X13.  Nothing is ever lit between the bands: in a frame, rows 0, 29, 31
    and 32 are dark across the display, and rows 61 to 63 are dark outside
    the columns of the page dots. *)
Theorem frame_margins_dark (page : Z) (l : Loop) (x row : Z) :
  _max_h (s1 l) = LINE_HEIGHT ∧ _max_h (s2 l) = LINE_HEIGHT
  ∧ _max_h (s3 l) = LINE_HEIGHT ∧ _max_h (s4 l) = LINE_HEIGHT →
  0 ≤ x < DISPLAY_W →
  row = 0 ∨ row = 29 ∨ row = 31 ∨ row = 32
  ∨ (61 ≤ row ≤ 63 ∧ (x < 115 ∨ 125 < x)) →
  getpixel (render page l) x row = false.
Proof.
  intros (H1 & H2 & H3 & H4) Hx Hrow.
  unfold getpixel. rewrite render_inside by (layout; lia). cbn [andb].
  unfold render.
  rewrite !draw_ellipse_elsewhere by (layout; lia).
  rewrite draw_hline_elsewhere by (layout; lia).
  rewrite !draw_onto_lane by (rewrite ?H1, ?H2, ?H3, ?H4; layout; lia).
  reflexivity.
Qed.

(** X14.  Where the library fills the centre of an ellipse, the centre of
    the left page dot is lit exactly on page 0 and the centre of the right
    one exactly on page 1: in every round of the main loop one of the two
    is lit and the other is dark. *)
Theorem page_dots_show_page (m : Moment) (l : Loop) :
  ellipse_part (115, 59, 119, 63) 117 61 = Interior →
  ellipse_part (121, 59, 125, 63) 123 61 = Interior →
  let frame := fst (main_round m l) in
  getpixel frame 117 61 = (page_index (now m) =? 0)
  ∧ getpixel frame 123 61 = (page_index (now m) =? 1)
  ∧ getpixel frame 123 61 = negb (getpixel frame 117 61).
Proof.
  intros Hleft Hright frame.
  assert (El : getpixel frame 117 61 = (page_index (now m) =? 0)).
  { unfold frame, main_round, getpixel. cbn [fst].
    rewrite render_inside by lia. cbn [andb]. unfold render.
    rewrite draw_ellipse_elsewhere by (layout; lia).
    unfold draw_ellipse at 1. cbn [im_px].
    change (DISPLAY_W - 13, DISPLAY_H - 5, DISPLAY_W - 9, DISPLAY_H - 5 + 4)
      with (115, 59, 119, 63).
    rewrite Hleft.
    match goal with |- (if ?c then _ else _) = _ => assert (Ec : c = true) end;
      [|now rewrite Ec].
    apply andb_true_iff. split; [apply inside_spec; cbn; layout; lia|].
    apply in_box_spec. layout. lia. }
  assert (Er : getpixel frame 123 61 = (page_index (now m) =? 1)).
  { unfold frame, main_round, getpixel. cbn [fst].
    rewrite render_inside by lia. cbn [andb]. unfold render.
    unfold draw_ellipse at 1. cbn [im_px].
    change (DISPLAY_W - 7, DISPLAY_H - 5, DISPLAY_W - 3, DISPLAY_H - 5 + 4)
      with (121, 59, 125, 63).
    rewrite Hright.
    match goal with |- (if ?c then _ else _) = _ => assert (Ec : c = true) end;
      [|now rewrite Ec].
    apply andb_true_iff. split; [apply inside_spec; cbn; layout; lia|].
    apply in_box_spec. layout. lia. }
  split; [exact El|]. split; [exact Er|]. rewrite El, Er.
  destruct (page_index_bit (now m)) as [-> | ->]; reflexivity.
Qed.

Lemma prepare_ok (m : Moment) (l : Loop) :
  scroller_ok (s1 l) ∧ scroller_ok (s2 l) ∧ scroller_ok (s3 l) ∧ scroller_ok (s4 l) →
  scroller_ok (s1 (prepare m l)) ∧ scroller_ok (s2 (prepare m l))
  ∧ scroller_ok (s3 (prepare m l)) ∧ scroller_ok (s4 (prepare m l)).
Proof.
  intros (H1 & H2 & H3 & H4). unfold prepare, page_sync, compose.
  case_bool_decide; cbn [s1 s2 s3 s4]; destruct (page_index (now m) =? 0);
    (split; [|split; [|split]]); auto using scroller_ok_set, scroller_ok_reset.
Qed.

Lemma main_round_ok (m : Moment) (l : Loop) :
  scroller_ok (s1 l) ∧ scroller_ok (s2 l) ∧ scroller_ok (s3 l) ∧ scroller_ok (s4 l) →
  let l' := snd (main_round m l) in
  scroller_ok (s1 l') ∧ scroller_ok (s2 l') ∧ scroller_ok (s3 l') ∧ scroller_ok (s4 l').
Proof.
  intros Hl. destruct (prepare_ok m l Hl) as (H1 & H2 & H3 & H4).
  unfold main_round, advance. cbn [snd s1 s2 s3 s4].
  (split; [|split; [|split]]); now apply scroller_ok_tick.
Qed.

Lemma main_loop_ok (ms : list Moment) (l : Loop) :
  scroller_ok (s1 l) ∧ scroller_ok (s2 l) ∧ scroller_ok (s3 l) ∧ scroller_ok (s4 l) →
  let l' := snd (main_loop ms l) in
  scroller_ok (s1 l') ∧ scroller_ok (s2 l') ∧ scroller_ok (s3 l') ∧ scroller_ok (s4 l').
Proof.
  revert l. induction ms as [|m ms IH]; intros l Hl; [exact Hl|].
  rewrite main_loop_cons. cbn [snd]. apply IH. now apply main_round_ok.
Qed.

Lemma main_loop_length (ms : list Moment) (l : Loop) :
  length (fst (main_loop ms l)) = length ms.
Proof.
  revert l. induction ms as [|m ms IH]; intros l; [reflexivity|].
  rewrite main_loop_cons. cbn [fst length]. now rewrite IH.
Qed.

(** X15.  The main loop displays one frame of 128 by 64 pixels per round,
    and after any number of rounds each of its four scrollers is
    well-formed, now and when the next frame is drawn: a line scrolls
    exactly when it is wider than the display, a line that fits is at
    offset 0, and a scrolling line's offset lies within one loop, so the
    window cropped for it lies inside its band. *)
Theorem main_loop_well_formed (ms : list Moment) (next : Moment) :
  let frames := fst (main_loop ms main_init) in
  let l := snd (main_loop ms main_init) in
  length frames = length ms
  ∧ Forall (λ frame, im_w frame = DISPLAY_W ∧ im_h frame = DISPLAY_H) frames
  ∧ Forall scroller_ok [s1 l; s2 l; s3 l; s4 l]
  ∧ Forall (λ s, scroller_ok s
                 ∧ (_scrolling s = true →
                      0 ≤ offset s
                      ∧ offset s + DISPLAY_W ≤ 2 * (_width s + SCROLL_GAP)))
           (let drawn := prepare next l in [s1 drawn; s2 drawn; s3 drawn; s4 drawn]).
Proof.
  intros frames l.
  assert (Hl : scroller_ok (s1 l) ∧ scroller_ok (s2 l)
               ∧ scroller_ok (s3 l) ∧ scroller_ok (s4 l)).
  { apply main_loop_ok. (split; [|split; [|split]]); apply scroller_ok_init. }
  destruct (prepare_ok next l Hl) as (P1 & P2 & P3 & P4).
  assert (Hwin : ∀ s, scroller_ok s →
            scroller_ok s
            ∧ (_scrolling s = true →
                 0 ≤ offset s ∧ offset s + DISPLAY_W ≤ 2 * (_width s + SCROLL_GAP))).
  { intros s Hok. split; [exact Hok|]. intros Hs. destruct Hok as [Hscr Ho].
    rewrite Hs in Ho. symmetry in Hscr. rewrite Hs in Hscr.
    apply Z.ltb_lt in Hscr. unfold DISPLAY_W, SCROLL_GAP in *. lia. }
  split; [apply main_loop_length|]. split; [|split].
  - apply main_loop_frames. intros page l'. split; reflexivity.
  - destruct Hl as (H1 & H2 & H3 & H4).
    repeat (constructor; [assumption|]). constructor.
  - cbn zeta. repeat (constructor; [now apply Hwin|]). constructor.
Qed.
End FramesMore2.

Lemma sample_heights :
  let l := snd (main_round (H := Sample.fixed_pitch)
                  {| now := 12 # 1; store := Sample.store0; sys_now := Sample.healthy |}
                  main_init) in
  _max_h (s1 l) = LINE_HEIGHT ∧ _max_h (s2 l) = LINE_HEIGHT
  ∧ _max_h (s3 l) = LINE_HEIGHT ∧ _max_h (s4 l) = LINE_HEIGHT.
Proof. repeat split. Qed.

Lemma frame_lanes_witness :
  let l := snd (main_round (H := Sample.fixed_pitch)
                  {| now := 12 # 1; store := Sample.store0; sys_now := Sample.healthy |}
                  main_init) in
  getpixel (render 0 l) 7 (Y_LINE2 + 3) = getpixel (line_band (s2 l)) 7 3
  ∧ getpixel (render 0 l) 7 (Y_LINE4 + 13) = getpixel (line_band (s4 l)) 7 13.
Proof.
  intros l.
  destruct (frame_lanes (H := Sample.fixed_pitch) 0 l 7 3 sample_heights)
    as (_ & Hline2 & _); [layout; lia | layout; lia|].
  destruct (frame_lanes (H := Sample.fixed_pitch) 0 l 7 13 sample_heights)
    as (_ & _ & _ & Hline4); [layout; lia | layout; lia|].
  split; [exact Hline2|]. apply Hline4. right. left. lia.
Defined.

Lemma frame_margins_dark_witness :
  let l := snd (main_round (H := Sample.fixed_pitch)
                  {| now := 12 # 1; store := Sample.store0; sys_now := Sample.healthy |}
                  main_init) in
  getpixel (render 0 l) 6 29 = false ∧ getpixel (render 0 l) 6 62 = false.
Proof.
  intros l. split.
  - apply (frame_margins_dark (H := Sample.fixed_pitch) 0 l 6 29 sample_heights);
      [layout; lia|]. right. left. reflexivity.
  - apply (frame_margins_dark (H := Sample.fixed_pitch) 0 l 6 62 sample_heights);
      [layout; lia|]. right. right. right. right. lia.
Defined.

Lemma page_dots_show_page_witness :
  let m := {| now := 12 # 1; store := Sample.store0; sys_now := Sample.healthy |} in
  page_index (now m) = 0
  ∧ getpixel (fst (main_round (H := Sample.fixed_pitch) m main_init)) 117 61 = true
  ∧ getpixel (fst (main_round (H := Sample.fixed_pitch) m main_init)) 123 61 = false.
Proof.
  intros m.
  destruct (page_dots_show_page (H := Sample.fixed_pitch) m main_init eq_refl eq_refl)
    as (Hleft & Hright & _).
  split; [vm_compute; reflexivity|]. split.
  - rewrite Hleft. vm_compute. reflexivity.
  - rewrite Hright. vm_compute. reflexivity.
Defined.

(** ** More on the page index *)

Lemma window_shift (t : Q) (k : Z) :
  window (t + inject_Z (PAGE_FLIP_SEC * k)) = window t + k.
Proof.
  destruct t as [n d].
  unfold window, Qfloor, Qdiv, Qmult, Qinv, Qplus, inject_Z, PAGE_FLIP_SEC.
  cbn [Qnum Qden]. rewrite !Pos2Z.inj_mul, !Z.mul_1_r.
  replace (n + 5 * k * Z.pos d) with (n + k * (Z.pos d * 5)) by lia.
  apply Z.div_add. lia.
Qed.

(** X16.  From any reading at or after the epoch, [k] page durations later
    the page has advanced [k] times: one duration later it is the other
    page, two durations later the same page again, so the display cycles
    every 10 seconds. *)
Theorem page_index_cycle (t : Q) (k : Z) :
  (0 <= t)%Q → 0 ≤ k →
  page_index (t + inject_Z (PAGE_FLIP_SEC * k)) = (page_index t + k) mod 2
  ∧ page_index (t + inject_Z 5) = 1 - page_index t
  ∧ page_index (t + inject_Z 10) = page_index t.
Proof.
  intros Ht Hk.
  assert (Hshift : ∀ j, 0 ≤ j →
            page_index (t + inject_Z (PAGE_FLIP_SEC * j)) = (page_index t + j) mod 2).
  { intros j Hj.
    assert (Hpos : (0 <= t + inject_Z (PAGE_FLIP_SEC * j))%Q).
    { rewrite <- (Qplus_0_r 0). apply Qplus_le_compat; [exact Ht|].
      unfold Qle, inject_Z, PAGE_FLIP_SEC; cbn. lia. }
    rewrite !page_index_window by assumption.
    rewrite window_shift. now rewrite Z.add_mod_idemp_l by lia. }
  split; [now apply Hshift|]. split.
  - change (inject_Z 5) with (inject_Z (PAGE_FLIP_SEC * 1)).
    rewrite Hshift by lia. destruct (page_index_bit t) as [-> | ->]; reflexivity.
  - change (inject_Z 10) with (inject_Z (PAGE_FLIP_SEC * 2)).
    rewrite Hshift by lia. destruct (page_index_bit t) as [-> | ->]; reflexivity.
Qed.

Lemma page_index_cycle_witness :
  page_index ((1762272072 # 1) + inject_Z (PAGE_FLIP_SEC * 7))
  = (page_index (1762272072 # 1) + 7) mod 2
  ∧ page_index ((49 # 10) + inject_Z 10) = page_index (49 # 10).
Proof.
  assert (H0 : (0 <= 1762272072 # 1)%Q) by (vm_compute; discriminate).
  assert (H1 : (0 <= 49 # 10)%Q) by (vm_compute; discriminate).
  destruct (page_index_cycle (1762272072 # 1) 7 H0 ltac:(lia)) as (Hk & _ & _).
  destruct (page_index_cycle (49 # 10) 0 H1 ltac:(lia)) as (_ & _ & Hten).
  split; [exact Hk | exact Hten].
Defined.

(** ** From the collectors to the lines *)

(** X17.  After a refresh that succeeds, [get] returns for each of the six
    keys the string its collector returned in that refresh, whatever the
    store held before. *)
Theorem refresh_then_get (sys : System) (d d' : DataStore) :
  refresh sys d = Ok d' →
  get_ip sys = Ok (get d' "ip")
  ∧ get_hostname sys = Ok (get d' "hostname")
  ∧ get_ram_label sys = Ok (get d' "ram")
  ∧ get_cpu sys = Ok (get d' "cpu")
  ∧ get_network sys = Ok (get d' "network")
  ∧ get_disk sys = Ok (get d' "disk").
Proof.
  intros Hr. apply refresh_ok in Hr as (new & Hnew & Hd').
  apply collect_ok in Hnew
    as (ip & hostname & ram & cpu & network & disk
        & Hip & Hhost & Hram & Hcpu & Hnet & Hdisk & ->).
  unfold get. rewrite Hd'.
  repeat split;
    match goal with
    | |- _ = Ok (default "" ((?new ∪ _) !! ?k)) =>
        erewrite (lookup_union_Some_l new _ k) by (simplify_map_eq; reflexivity)
    end; assumption.
Qed.

Lemma refresh_then_get_witness :
  ∃ d', refresh Sample.offline Sample.store0 = Ok d'
        ∧ get_ip Sample.offline = Ok (get d' "ip")
        ∧ get_disk Sample.offline = Ok (get d' "disk").
Proof.
  destruct (refresh Sample.offline Sample.store0) as [d'|e] eqn:Hr;
    [|vm_compute in Hr; discriminate Hr].
  exists d'. split; [reflexivity|].
  destruct (refresh_then_get Sample.offline Sample.store0 d' Hr)
    as (Hip & _ & _ & _ & _ & Hdisk).
  split; [exact Hip | exact Hdisk].
Defined.

(** X18.  A refresh reports the first failure in the order hostname, RAM,
    CPU, network, disk (the address lookup cannot fail), and it returns
    exactly when all of these return. *)
Theorem refresh_first_error (sys : System) (d : DataStore) :
  (∀ e, get_hostname sys = Raise e → refresh sys d = Raise e)
  ∧ (∀ h e, get_hostname sys = Ok h → get_ram_label sys = Raise e →
       refresh sys d = Raise e)
  ∧ (∀ h r e, get_hostname sys = Ok h → get_ram_label sys = Ok r →
       get_cpu sys = Raise e → refresh sys d = Raise e)
  ∧ (∀ h r c e, get_hostname sys = Ok h → get_ram_label sys = Ok r →
       get_cpu sys = Ok c → get_network sys = Raise e → refresh sys d = Raise e)
  ∧ (∀ h r c n e, get_hostname sys = Ok h → get_ram_label sys = Ok r →
       get_cpu sys = Ok c → get_network sys = Ok n → get_disk sys = Raise e →
       refresh sys d = Raise e)
  ∧ (∀ h r c n k, get_hostname sys = Ok h → get_ram_label sys = Ok r →
       get_cpu sys = Ok c → get_network sys = Ok n → get_disk sys = Ok k →
       ∃ d', refresh sys d = Ok d').
Proof.
  assert (Hip : ∃ ip, get_ip sys = Ok ip).
  { unfold get_ip. destruct (udp_sockname sys); cbn; eauto. }
  destruct Hip as [ip Hip]. unfold refresh, collect. rewrite Hip. cbn.
  repeat split; intros;
    repeat match goal with
           | Heq : _ = Ok _ |- _ => rewrite Heq; cbn; clear Heq
           | Heq : _ = Raise _ |- _ => rewrite Heq; cbn; clear Heq
           end; eauto.
Qed.

Lemma refresh_first_error_witness :
  refresh Sample.disk_down Sample.store0 = Raise "Input/output error"
  ∧ ∃ d', refresh Sample.healthy Sample.store0 = Ok d'.
Proof.
  destruct (refresh_first_error Sample.disk_down Sample.store0)
    as (_ & _ & _ & _ & Hdisk & _).
  destruct (refresh_first_error Sample.healthy Sample.store0)
    as (_ & _ & _ & _ & _ & Hall).
  split.
  - apply (Hdisk "pi-node-1" "4GB" "CPU:12%  T:48.3C" "Net:eth0 [UP]");
      vm_compute; reflexivity.
  - apply (Hall "pi-node-1" "4GB" "CPU:12%  T:48.3C" "Net:eth0 [UP]"
                "Disk:12.3/59GB 21%"); vm_compute; reflexivity.
Defined.

Section LinesDrawn.
Context `{PIL}.

(** X19.  Whatever the scrollers showed before, the frame of a round is
    drawn from the store as it is in that round: line 1 is "IP:" and the
    address in the bold font, line 2 the hostname, two spaces and the RAM
    label; on page 0 lines 3 and 4 are the CPU and network lines, on page 1
    the disk line and the clock read in that round. *)
Theorem lines_drawn (m : Moment) (l : Loop) :
  let drawn := prepare m l in
  let st := store m in
  (_text (s1 drawn) = "IP:" +:+ get st "ip" ∧ _font (s1 drawn) = font_bold)
  ∧ (_text (s2 drawn) = get st "hostname" +:+ "  " +:+ get st "ram"
     ∧ _font (s2 drawn) = font)
  ∧ (page_index (now m) = 0 →
       _text (s3 drawn) = get st "cpu" ∧ _text (s4 drawn) = get st "network")
  ∧ (page_index (now m) = 1 →
       _text (s3 drawn) = get st "disk"
       ∧ _text (s4 drawn) = get_time (sys_now m)).
Proof.
  intros drawn st. unfold drawn, prepare, compose. cbn [s1 s2 s3 s4].
  split; [apply set_text_font|]. split; [apply set_text_font|].
  split; intros Hpage; rewrite Hpage; cbn [Z.eqb]; split; apply set_text_font.
Qed.
End LinesDrawn.

Lemma lines_drawn_witness :
  let m := {| now := 51 # 10; store := Sample.store0; sys_now := Sample.healthy |} in
  let l := snd (main_round (H := Sample.fixed_pitch)
                  {| now := 49 # 10; store := Sample.store0; sys_now := Sample.offline |}
                  main_init) in
  page_index (now m) = 1
  ∧ _text (s3 l) = "CPU:12%  T:48.3C"
  ∧ _text (s3 (prepare m l)) = "Disk:12.3/59GB 21%"
  ∧ _text (s4 (prepare m l)) = "Time:09:05:07".
Proof.
  intros m l.
  assert (Hpage : page_index (now m) = 1) by (vm_compute; reflexivity).
  destruct (lines_drawn (H := Sample.fixed_pitch) m l) as (_ & _ & _ & Hpage1).
  destruct (Hpage1 Hpage) as [H3 H4].
  split; [exact Hpage|]. split; [vm_compute; reflexivity|].
  split; [rewrite H3 | rewrite H4]; vm_compute; reflexivity.
Defined.

Lemma main_loop_well_formed_witness :
  let a := {| now := 49 # 10; store := Sample.store0; sys_now := Sample.healthy |} in
  let b := {| now := 51 # 10; store := Sample.store0; sys_now := Sample.offline |} in
  let l := snd (main_loop (H := Sample.fixed_pitch) [a; b] main_init) in
  let line1 := s1 (prepare b l) in
  length (fst (main_loop (H := Sample.fixed_pitch) [a; b] main_init)) = 2%nat
  ∧ _scrolling line1 = true
  ∧ 0 ≤ offset line1
  ∧ offset line1 + DISPLAY_W ≤ 2 * (_width line1 + SCROLL_GAP).
Proof.
  intros a b l line1.
  destruct (main_loop_well_formed (H := Sample.fixed_pitch) [a; b] b)
    as (Hlen & _ & _ & Hdrawn).
  apply Forall_inv in Hdrawn. destruct Hdrawn as [_ Hwindow].
  assert (Hs : _scrolling line1 = true) by (vm_compute; reflexivity).
  split; [exact Hlen|]. split; [exact Hs|]. exact (Hwindow Hs).
Defined.

(** ** Halves in the printed lines *)

Lemma fmt_f_0_half (n : Z) :
  0 ≤ n → fmt_f 0 ((2 * n + 1) # 2) = pretty (if Z.even n then n else n + 1).
Proof.
  intros Hn. rewrite fmt_f_0_nonneg by (unfold Qle; cbn [Qnum Qden]; lia).
  f_equal. unfold Qabs, Qmult, inject_Z. cbn [Qnum Qden].
  rewrite Z.abs_eq, Z.mul_1_r, Pos.mul_1_r by lia.
  apply round_half_even_ties.
Qed.

Lemma fmt_f_0_whole (n : Z) : 0 ≤ n → fmt_f 0 (inject_Z n) = pretty n.
Proof.
  intros Hn. rewrite fmt_f_0_nonneg by (unfold Qle, inject_Z; cbn [Qnum Qden]; lia).
  f_equal. unfold Qabs, Qmult, inject_Z. cbn [Qnum Qden].
  rewrite Z.abs_eq, Z.mul_1_r by lia.
  change (1 * 1)%positive with 1%positive.
  apply (proj1 (round_half_even_ties n)).
Qed.

(** X2.  A CPU load or a disk percentage exactly halfway between two
    integers is printed as the even one of the two, not always rounded up:
    [get_cpu] shows a load of 12.5 as "12" and of 13.5 as "14", and
    [get_disk] does the same with the percentage; a whole number is printed
    as it is. *)
Theorem half_prints_even (sys : System) (u : sdiskusage) (n : Z) (temp : Q) :
  0 ≤ n →
  let shown := pretty (if Z.even n then n else n + 1) in
  (cpu_percent sys = Ok ((2 * n + 1) # 2) → thermal_zone0 sys = Ok temp →
     get_cpu sys = Ok ("CPU:" +:+ shown +:+ "%  T:" +:+ fmt_f 1 temp +:+ "C"))
  ∧ (cpu_percent sys = Ok (inject_Z n) → thermal_zone0 sys = Ok temp →
     get_cpu sys = Ok ("CPU:" +:+ pretty n +:+ "%  T:" +:+ fmt_f 1 temp +:+ "C"))
  ∧ (disk_usage_root sys = Ok u → percent u = (2 * n + 1) # 2 →
     get_disk sys
     = Ok ("Disk:" +:+ fmt_f 1 (py_truediv (used u) (1024 ^ 3))
             +:+ "/" +:+ fmt_f 0 (py_truediv (total u) (1024 ^ 3))
             +:+ "GB " +:+ shown +:+ "%")).
Proof.
  intros Hn shown. split; [|split].
  - intros Hpct Htherm. unfold get_cpu. rewrite Hpct, Htherm.
    rewrite bind_Ok. cbn [try_except]. rewrite bind_Ok.
    now rewrite fmt_f_0_half.
  - intros Hpct Htherm. unfold get_cpu. rewrite Hpct, Htherm.
    rewrite bind_Ok. cbn [try_except]. rewrite bind_Ok.
    now rewrite fmt_f_0_whole.
  - intros Hu Hp. unfold get_disk. rewrite Hu, bind_Ok. unfold disk_line.
    rewrite Hp, fmt_f_0_half by exact Hn. reflexivity.
Qed.

Lemma half_prints_even_witness :
  0 ≤ 12
  ∧ cpu_percent Sample.healthy = Ok ((2 * 12 + 1) # 2)
  ∧ get_cpu Sample.healthy = Ok "CPU:12%  T:48.3C".
Proof.
  assert (H12 : 0 ≤ 12) by lia.
  destruct (half_prints_even Sample.healthy
              {| total := 0; used := 0; free := 0; percent := 25 # 2 |}
              12 (48312 # 1000) H12) as (Hhalf & _ & _).
  split; [exact H12|]. split; [reflexivity|].
  rewrite (Hhalf eq_refl eq_refl). vm_compute. reflexivity.
Defined.
